(** * github-agent: search aggregation, de-duplication and the HTTP routes

    A shallow embedding of [src/server/routes/chat.js] and
    [src/server/services/github.js].

    - records returned by [gh ... --json] are JS objects; the only property the
      routes ever read is [url], so a record is its [url] (a string, or
      [undefined] when the property is absent) together with its remaining
      properties;
    - the [Set] captured by the closure of [deduplicateByUrl] is a [gset] of
      keys, threaded through the filter callback;
    - [execSync], [JSON.parse], [process.env] and the two functions of the
      language-model service ([services/llm.js]) are the environment: the
      fields of the class [Environment]; every call that leaves the process is
      recorded in a trace;
    - the query of [POST /api/search] is any JSON value, with its truthiness
      and its conversion to a string, which may throw;
    - for the question whether [deduplicateByUrl] writes to its argument,
      arrays and [Set]s live in a heap and [filter] is its loop;
    - [try]/[catch] and rejected promises are an exception monad over that
      trace. Console output is not part of the model, and neither is
      [getIssueDetails], which no route calls and whose [gh] output is an
      object, not an array of records. *)

From stdpp Require Import gmap strings list pretty.

#[local] Set Warnings "-register-all,-clear-no-such-hyp".

(** ** Data model *)

(** JSON values carried by the properties of a record that the routes never
    inspect. *)
Inductive json : Type :=
| JNull
| JBool (b : bool)
| JNum (n : Z)
| JStr (s : string)
| JArr (items : list json)
| JObj (props : list (string * json)).

(** The key a [Set] stores for [item.url]: [None] is the value [undefined]
    (property absent), [Some s] is the string [s]. [Set] compares keys with
    SameValueZero, which on these values is equality. *)
Definition url_key : Type := option string.

Record SearchRecord : Type := {
  url : url_key;
  props : list (string * json);
}.

(** ** [deduplicateByUrl] (routes/chat.js) *)

(** [items.filter(item => { if (seen.has(item.url)) return false;
    seen.add(item.url); return true; })], with the set [seen] passed along. *)
Fixpoint filter_seen (seen : gset url_key) (items : list SearchRecord)
  : list SearchRecord :=
  match items with
  | [] => []
  | item :: rest =>
      if bool_decide (url item ∈ seen)
      then filter_seen seen rest
      else item :: filter_seen ({[url item]} ∪ seen) rest
  end.

Definition deduplicateByUrl (items : list SearchRecord) : list SearchRecord :=
  filter_seen ∅ items.

(** The specification's wording, clause by clause: the record at position [i]
    is kept exactly when no record before position [i] carries its key. *)
Definition first_occurrences (items : list SearchRecord) : list SearchRecord :=
  mjoin (imap (fun i item =>
                 if bool_decide (url item ∈ url <$> take i items)
                 then [] else [item]) items).

(** Records used in examples. *)
Definition rec (u : string) : SearchRecord := {| url := Some u; props := [] |}.
Definition rec_titled (u t : string) : SearchRecord :=
  {| url := Some u; props := [("title", JStr t)] |}.
Definition rec_no_url (t : string) : SearchRecord :=
  {| url := None; props := [("title", JStr t)] |}.

(** ** Arrays and sets in the heap

    To speak about the argument array after the call, the objects that
    [deduplicateByUrl] touches live in a heap and are passed by reference:
    arrays of records and [Set]s of keys. [Array.prototype.filter] and the
    methods of [Set] are the builtins, step by step as ECMAScript gives them;
    the callback is the one of the source. An operation yields [None] when
    a reference does not hold the kind of object it needs. *)

Inductive object : Type :=
| ArrayObj (elements : list SearchRecord)
| SetObj (keys : gset url_key).

Abbreviation loc := nat.
Abbreviation heap := (gmap loc object).

(** [new Set()], and the creation of the array that [filter] returns. *)
Definition alloc (o : object) (h : heap) : loc * heap :=
  let l := fresh (dom h) in (l, <[l := o]> h).

(** [seen.has(k)] *)
Definition set_has (seen : loc) (k : url_key) (h : heap) : option bool :=
  match h !! seen with
  | Some (SetObj keys) => Some (bool_decide (k ∈ keys))
  | _ => None
  end.

(** [seen.add(k)] *)
Definition set_add (seen : loc) (k : url_key) (h : heap) : option heap :=
  match h !! seen with
  | Some (SetObj keys) => Some (<[seen := SetObj ({[k]} ∪ keys)]> h)
  | _ => None
  end.

(** The write of [filter] to its result: the value becomes the next element. *)
Definition array_push (a : loc) (x : SearchRecord) (h : heap) : option heap :=
  match h !! a with
  | Some (ArrayObj elements) => Some (<[a := ArrayObj (elements ++ [x])]> h)
  | _ => None
  end.

(** A callback of [filter]: it sees the element and may change the heap. *)
Definition callback : Type := SearchRecord → heap → option (bool * heap).

(** The loop of [filter], [n] indices from [k] on. Each round reads the array
    at [items] again, as it is then: an index that is no longer there is
    skipped; otherwise the callback runs, and an element it selects is
    appended to the array at [result]. *)
Fixpoint filter_from (cb : callback) (items result : loc) (k n : nat) (h : heap)
  : option heap :=
  match n with
  | 0 => Some h
  | S n' =>
      match h !! items with
      | Some (ArrayObj xs) =>
          match xs !! k with
          | Some x =>
              match cb x h with
              | Some (true, h') =>
                  match array_push result x h' with
                  | Some h'' => filter_from cb items result (S k) n' h''
                  | None => None
                  end
              | Some (false, h') => filter_from cb items result (S k) n' h'
              | None => None
              end
          | None => filter_from cb items result (S k) n' h
          end
      | _ => None
      end
  end.

(** [items.filter(cb)]: the length is read once, the result array is created,
    then the loop runs over the indices below that length. *)
Definition array_filter (cb : callback) (items : loc) (h : heap)
  : option (loc * heap) :=
  match h !! items with
  | Some (ArrayObj xs) =>
      let '(result, h1) := alloc (ArrayObj []) h in
      match filter_from cb items result 0 (length xs) h1 with
      | Some h2 => Some (result, h2)
      | None => None
      end
  | _ => None
  end.

(** [item => { if (seen.has(item.url)) { return false; }
    seen.add(item.url); return true; }] *)
Definition seen_callback (seen : loc) : callback :=
  fun item h =>
    match set_has seen (url item) h with
    | Some true => Some (false, h)
    | Some false =>
        match set_add seen (url item) h with
        | Some h' => Some (true, h')
        | None => None
        end
    | None => None
    end.

(** [deduplicateByUrl(items)] on references. *)
Definition deduplicateByUrl_heap (items : loc) (h : heap) : option (loc * heap) :=
  let '(seen, h1) := alloc (SetObj ∅) h in
  array_filter (seen_callback seen) items h1.

(** A callback that empties the array it is filtering. *)
Definition truncating_callback (items : loc) : callback :=
  fun item h => Some (true, <[items := ArrayObj []]> h).

(** ** Values, errors and responses *)

(** A JS value that is a string or [undefined]: a property of a request body,
    an environment variable. *)
Definition jsstring : Type := option string.

(** [!x] is [false] exactly on the truthy values; of these values the falsy
    ones are [undefined] and the empty string. *)
Definition truthy (x : jsstring) : bool :=
  match x with
  | None => false
  | Some EmptyString => false
  | Some _ => true
  end.

(** [x || d] *)
Definition or_else (x : jsstring) (d : string) : string :=
  match x with
  | Some (String a s) => String a s
  | _ => d
  end.

(** Any value a JSON request body can hold in a property, and [undefined] for
    a property that is absent. A number is given by the text that converting
    it to a string yields: the routes do nothing else with it than test it and
    interpolate it, and zero of either sign yields the text 0. *)
Inductive jsvalue : Type :=
| VUndefined
| VNull
| VBool (b : bool)
| VNumber (text : string)
| VString (s : string)
| VArray (elements : list jsvalue)
| VObject (properties : list (string * jsvalue)).

(** [!v] is [false] exactly on these. *)
Definition js_truthy (v : jsvalue) : bool :=
  match v with
  | VUndefined | VNull => false
  | VBool b => b
  | VNumber text => negb (String.eqb text "0")
  | VString s => negb (String.eqb s EmptyString)
  | VArray _ | VObject _ => true
  end.

(** [`${x}`] *)
Definition template (x : jsstring) : string :=
  match x with
  | Some s => s
  | None => "undefined"
  end.

(** [s.includes(sub)] *)
Fixpoint includes (s sub : string) : bool :=
  String.prefix sub s ||
  match s with
  | EmptyString => false
  | String _ s' => includes s' sub
  end.

(** Modelled from the spec: the error taxonomy of section 7. The service
    [services/llm.js] that throws these errors is not part of the sources; an
    error is of kind [AuthenticationError] when the language-model collaborator
    rejected the credential, and [UnexpectedError] is anything else. The code
    reads only [message]. *)
Inductive failure_kind : Type :=
| AuthenticationError
| UnexpectedError.

Record js_error : Type := {
  kind : failure_kind;
  message : jsstring;
}.

Record Summary : Type := {
  issuesFound : nat;
  prsFound : nat;
  codeFilesFound : nat;
  commitsFound : nat;
}.

(** The object [{issues, pullRequests, code, commits, summary}]; [summary] is
    [None] while the property has not been assigned. *)
Record ResultBundle : Type := {
  issues : list SearchRecord;
  pullRequests : list SearchRecord;
  code : list SearchRecord;
  commits : list SearchRecord;
  summary : option Summary;
}.

Inductive Body : Type :=
| ErrorBody (error : string)
| ChatBody (response : string) (searchSummary : option Summary)
    (keywords : list string)
| SystemPromptBody (systemPrompt : string)
| ReposBody (repos : list SearchRecord) (org : string)
| SearchBody (results : ResultBundle).

Record Response : Type := {
  status : nat;
  body : Body;
}.

(** [res.json(b)] and [res.status(n).json(b)] *)
Definition res_json (b : Body) : Response := {| status := 200; body := b |}.
Definition res_status_json (n : nat) (b : Body) : Response :=
  {| status := n; body := b |}.

(** The body of [POST /api/chat] and of [POST /api/search]. *)
Record ChatRequest : Type := {
  req_message : jsstring;
  req_apiKey : jsstring;
  req_systemPrompt : jsstring;
}.

Record SearchRequest : Type := {
  req_query : jsvalue;
}.

(** ** The environment and its trace *)

(** One entry per call that leaves the process. *)
Inductive event : Type :=
| ExecSync (command : string)
| ExtractSearchKeywords (apiKey message : jsstring)
| GenerateResponse (apiKey message : jsstring) (allResults : ResultBundle)
    (systemPrompt : jsstring).

Definition trace : Type := list event.

(** A call returns or throws. *)
Inductive completion (A : Type) : Type :=
| Normal (a : A)
| Throw (e : js_error).
Arguments Normal {A} a.
Arguments Throw {A} e.

(** The [TypeError] of a conversion to a primitive value that finds none. *)
Definition cannot_convert : js_error :=
  {| kind := UnexpectedError;
     message := Some "Cannot convert object to primitive value" |}.

(** [`${v}`] for any value. An array is joined with commas, [null] and
    [undefined] elements giving the empty text. An object parsed from JSON has
    no method of its own: with an own property [toString] neither that
    property nor [valueOf] gives a primitive value and the conversion throws;
    without one, the inherited method answers. *)
Fixpoint ToString (v : jsvalue) : completion string :=
  match v with
  | VUndefined => Normal "undefined"
  | VNull => Normal "null"
  | VBool true => Normal "true"
  | VBool false => Normal "false"
  | VNumber text => Normal text
  | VString s => Normal s
  | VArray elements =>
      (fix join (l : list jsvalue) : completion string :=
         match l with
         | [] => Normal EmptyString
         | x :: rest =>
             match (match x with
                    | VUndefined | VNull => Normal EmptyString
                    | _ => ToString x
                    end) with
             | Throw e => Throw e
             | Normal first =>
                 match rest with
                 | [] => Normal first
                 | _ :: _ =>
                     match join rest with
                     | Throw e => Throw e
                     | Normal others => Normal (first +:+ "," +:+ others)
                     end
                 end
             end
         end) elements
  | VObject properties =>
      if bool_decide ("toString" ∈ properties.*1)
      then Throw cannot_convert
      else Normal "[object Object]"
  end.

(** What the code takes from outside. Each function sees the calls made before
    it, so that the same command may answer differently at different times.
    [JSON_parse] yields [None] for the text [null] and the array of records
    otherwise; output of [gh] that is another JSON value is outside the model. *)
Class Environment : Type := {
  env_GITHUB_ORG : jsstring;
  execSync : trace → string → completion string;
  JSON_parse : string → completion (option (list SearchRecord));
  llm_extractSearchKeywords : trace → jsstring → jsstring → completion (list string);
  llm_generateResponse :
    trace → jsstring → jsstring → ResultBundle → jsstring → completion string;
  llm_DEFAULT_SYSTEM_PROMPT : string;
}.

(** ** Computations: a trace and an exception *)

Definition M (A : Type) : Type := trace → completion A * trace.

Definition ret {A} (a : A) : M A := fun t => (Normal a, t).
Definition throw {A} (e : js_error) : M A := fun t => (Throw e, t).
Definition bind {A B} (m : M A) (k : A → M B) : M B :=
  fun t => match m t with
           | (Normal a, t') => k a t'
           | (Throw e, t') => (Throw e, t')
           end.

#[global] Instance M_ret : MRet M := @ret.
#[global] Instance M_bind : MBind M := fun A B k m => bind m k.

(** [try { m } catch (error) { handler }] *)
Definition try_catch {A} (m : M A) (handler : js_error → M A) : M A :=
  fun t => match m t with
           | (Normal a, t') => (Normal a, t')
           | (Throw e, t') => handler e t'
           end.

(** Calling an [async] function yields a promise: the body has run, and the
    promise holds its completion. [await] takes the completion out again. *)
Definition async_call {A} (m : M A) : M (completion A) :=
  fun t => let '(c, t') := m t in (Normal c, t').

Definition await {A} (p : completion A) : M A :=
  fun t => (p, t).

(** A call to the environment appends its event and completes as the
    environment says. *)
Definition perform {A} (ev : event) (answer : trace → completion A) : M A :=
  fun t => (answer t, t ++ [ev]).

(** A plain function of the runtime that may throw. *)
Definition lift {A} (c : completion A) : M A := fun t => (c, t).

Definition dquote : string := String (Ascii.ascii_of_nat 34) EmptyString.

(** ** [services/github.js] *)

Section github.
Context {env : Environment}.

(** [process.env.GITHUB_ORG || 'brandnewbox'] *)
Definition GITHUB_ORG : string := or_else env_GITHUB_ORG "brandnewbox".

(** Execute a gh CLI command and return parsed JSON; [None] is [null]. *)
Definition ghCommand (args : string) : M (option (list SearchRecord)) :=
  try_catch
    (result ← perform (ExecSync ("gh " +:+ args)) (fun t => execSync t ("gh " +:+ args));
     lift (JSON_parse result))
    (fun error => mret None).

(** [repos || []] *)
Definition or_empty (v : option (list SearchRecord)) : list SearchRecord :=
  match v with
  | Some items => items
  | None => []
  end.

Definition listRepos : M (list SearchRecord) :=
  repos ← ghCommand ("repo list " +:+ GITHUB_ORG +:+
                     " --json name,description,url,updatedAt --limit 100");
  mret (or_empty repos).

(** [limit = 20]: the default applies when the argument is not passed. *)
Definition searchIssues (query : jsstring) (limit : option nat) : M (list SearchRecord) :=
  let limit := default 20 limit in
  let searchQuery := template query +:+ " org:" +:+ GITHUB_ORG in
  issues ← ghCommand ("search issues " +:+ dquote +:+ searchQuery +:+ dquote +:+
                      " --json title,body,url,repository,state,createdAt,author --limit "
                      +:+ pretty limit);
  mret (or_empty issues).

Definition searchPullRequests (query : jsstring) (limit : option nat) : M (list SearchRecord) :=
  let limit := default 20 limit in
  let searchQuery := template query +:+ " org:" +:+ GITHUB_ORG in
  prs ← ghCommand ("search prs " +:+ dquote +:+ searchQuery +:+ dquote +:+
                   " --json title,body,url,repository,state,createdAt,author --limit "
                   +:+ pretty limit);
  mret (or_empty prs).

Definition searchCode (query : jsstring) (limit : option nat) : M (list SearchRecord) :=
  let limit := default 20 limit in
  let searchQuery := template query +:+ " org:" +:+ GITHUB_ORG in
  code ← ghCommand ("search code " +:+ dquote +:+ searchQuery +:+ dquote +:+
                    " --json path,repository,url --limit " +:+ pretty limit);
  mret (or_empty code).

Definition searchCommits (query : jsstring) (limit : option nat) : M (list SearchRecord) :=
  let limit := default 20 limit in
  let searchQuery := template query +:+ " org:" +:+ GITHUB_ORG in
  commits ← ghCommand ("search commits " +:+ dquote +:+ searchQuery +:+ dquote +:+
                       " --json sha,commit,repository,url --limit " +:+ pretty limit);
  mret (or_empty commits).

(** [await Promise.all([p1, p2, p3, p4])]: the four calls have been made by
    the time the array exists; the first rejected promise, in order, rejects
    the whole. *)
Definition comprehensiveSearch (query : jsstring) : M ResultBundle :=
  p1 ← async_call (searchIssues query (Some 10));
  p2 ← async_call (searchPullRequests query (Some 10));
  p3 ← async_call (searchCode query (Some 10));
  p4 ← async_call (searchCommits query (Some 5));
  issues ← await p1;
  prs ← await p2;
  code ← await p3;
  commits ← await p4;
  mret {| issues := issues;
          pullRequests := prs;
          code := code;
          commits := commits;
          summary := Some {| issuesFound := length issues;
                             prsFound := length prs;
                             codeFilesFound := length code;
                             commitsFound := length commits |} |}.
End github.

(** ** [services/github.js]: raw output *)

Section github_raw.
Context {env : Environment}.

(** Execute a gh CLI command and return raw output; [None] is [null]. *)
Definition ghCommandRaw (args : string) : M (option string) :=
  try_catch
    (result ← perform (ExecSync ("gh " +:+ args)) (fun t => execSync t ("gh " +:+ args));
     mret (Some result))
    (fun error => mret None).

(** Get file contents from a repository. *)
Definition getFileContents (repoFullName filePath : jsstring) : M (option string) :=
  contents ← ghCommandRaw ("api repos/" +:+ template repoFullName +:+ "/contents/" +:+
                           template filePath +:+ " --jq '.content' | base64 -d");
  mret contents.
End github_raw.

(** ** [routes/chat.js] *)

Section routes.
Context {env : Environment}.

(** [{ issues: [], pullRequests: [], code: [], commits: [] }] *)
Definition no_results : ResultBundle :=
  {| issues := []; pullRequests := []; code := []; commits := [];
     summary := None |}.

(** The four [allResults.c.push(...results.c)] of one iteration. *)
Definition push_results (allResults results : ResultBundle) : ResultBundle :=
  {| issues := issues allResults ++ issues results;
     pullRequests := pullRequests allResults ++ pullRequests results;
     code := code allResults ++ code results;
     commits := commits allResults ++ commits results;
     summary := summary allResults |}.

(** [for (const keyword of keywords) { ... }] *)
Fixpoint for_keywords (keywords : list string) (allResults : ResultBundle)
  : M ResultBundle :=
  match keywords with
  | [] => mret allResults
  | keyword :: rest =>
      results ← comprehensiveSearch (Some keyword);
      for_keywords rest (push_results allResults results)
  end.

(** The four assignments [allResults.c = deduplicateByUrl(allResults.c)]. *)
Definition deduplicate_results (allResults : ResultBundle) : ResultBundle :=
  {| issues := deduplicateByUrl (issues allResults);
     pullRequests := deduplicateByUrl (pullRequests allResults);
     code := deduplicateByUrl (code allResults);
     commits := deduplicateByUrl (commits allResults);
     summary := summary allResults |}.

(** [allResults.summary = { issuesFound: allResults.issues.length, ... }] *)
Definition set_summary (allResults : ResultBundle) : ResultBundle :=
  {| issues := issues allResults;
     pullRequests := pullRequests allResults;
     code := code allResults;
     commits := commits allResults;
     summary := Some {| issuesFound := length (issues allResults);
                        prsFound := length (pullRequests allResults);
                        codeFilesFound := length (code allResults);
                        commitsFound := length (commits allResults) |} |}.

(** Step 2 of the chat handler, from [let allResults = ...] to the assignment
    of [allResults.summary]: the multi-keyword orchestrator. *)
Definition orchestrate (keywords : list string) : M ResultBundle :=
  allResults ← for_keywords keywords no_results;
  mret (set_summary (deduplicate_results allResults)).

(** [error.message?.includes(sub)], as a condition. *)
Definition message_includes (error : js_error) (sub : string) : bool :=
  match message error with
  | Some m => includes m sub
  | None => false
  end.

(** [router.post('/chat', ...)] *)
Definition post_chat (req : ChatRequest) : M Response :=
  try_catch
    (let message := req_message req in
     let apiKey := req_apiKey req in
     let systemPrompt := req_systemPrompt req in
     if negb (truthy message) then
       mret (res_status_json 400 (ErrorBody "Message is required"))
     else if negb (truthy apiKey) then
       mret (res_status_json 400 (ErrorBody
         "API key is required. Please enter your Anthropic API key in settings."))
     else
       keywords ← perform (ExtractSearchKeywords apiKey message)
                          (fun t => llm_extractSearchKeywords t apiKey message);
       allResults ← orchestrate keywords;
       response ← perform (GenerateResponse apiKey message allResults systemPrompt)
                          (fun t => llm_generateResponse t apiKey message
                                      allResults systemPrompt);
       mret (res_json (ChatBody response (summary allResults) keywords)))
    (fun error =>
       if message_includes error "401" || message_includes error "authentication"
       then mret (res_status_json 401 (ErrorBody
         "Invalid API key. Please check your Anthropic API key."))
       else mret (res_status_json 500 (ErrorBody
         "An error occurred processing your request. Please try again."))).

(** [router.get('/system-prompt', ...)] *)
Definition get_system_prompt : M Response :=
  mret (res_json (SystemPromptBody llm_DEFAULT_SYSTEM_PROMPT)).

(** [router.get('/repos', ...)] *)
Definition get_repos : M Response :=
  try_catch
    (repos ← listRepos;
     mret (res_json (ReposBody repos GITHUB_ORG)))
    (fun error =>
       mret (res_status_json 500 (ErrorBody "Failed to list repositories"))).

(** [github.comprehensiveSearch(query)] with any value for [query]. The
    function and the four searches use [query] in template literals only, the
    first of them in the first statement of [comprehensiveSearch]: there the
    conversion throws, before any search, or it yields the text that every
    later interpolation yields again. *)
Definition comprehensiveSearch_of (query : jsvalue) : M ResultBundle :=
  text ← lift (ToString query);
  comprehensiveSearch (Some text).

(** [router.post('/search', ...)] *)
Definition post_search (req : SearchRequest) : M Response :=
  try_catch
    (let query := req_query req in
     if negb (js_truthy query) then
       mret (res_status_json 400 (ErrorBody "Query is required"))
     else
       results ← comprehensiveSearch_of query;
       mret (res_json (SearchBody results)))
    (fun error =>
       mret (res_status_json 500 (ErrorBody "Search failed"))).
End routes.

(** A request is served from an empty trace. *)
Definition serve {A} (m : M A) : completion A * trace := m [].

(** ** Vocabulary of the statements *)

(** The invocation [command] of [gh], made after the calls [t], fails: the
    process cannot be run or exits non-zero ([execSync] throws), or its output
    is not JSON ([JSON.parse] throws). *)
Definition gh_fails {env : Environment} (t : trace) (command : string) : bool :=
  match execSync t command with
  | Throw _ => true
  | Normal stdout =>
      match JSON_parse stdout with
      | Throw _ => true
      | Normal _ => false
      end
  end.

(** What the invocation yields to [ghCommand]: the parsed value, or [null]. *)
Definition gh_value {env : Environment} (t : trace) (command : string)
  : option (list SearchRecord) :=
  match execSync t command with
  | Throw _ => None
  | Normal stdout =>
      match JSON_parse stdout with
      | Throw _ => None
      | Normal v => v
      end
  end.

(** A category search fails soft: it invokes [gh] once, returns normally, and
    returns the empty array when the invocation fails. *)
Definition fails_soft {env : Environment}
    (search : jsstring → option nat → M (list SearchRecord)) : Prop :=
  ∀ (query : jsstring) (limit : option nat) (t : trace),
    ∃ (command : string) (items : list SearchRecord),
      search query limit t = (Normal items, t ++ [ExecSync command])
      ∧ (gh_fails t command = true → items = []).

Definition no_repeated_url (items : list SearchRecord) : Prop :=
  NoDup (url <$> items).

Definition invalid_api_key : Response :=
  {| status := 401;
     body := ErrorBody "Invalid API key. Please check your Anthropic API key." |}.

Definition request_failed : Response :=
  {| status := 500;
     body := ErrorBody "An error occurred processing your request. Please try again." |}.

(** A category search passes on what [gh] printed: the parsed array reaches
    the caller as it is, and the text [null] gives the empty array. *)
Definition passes_on_output {env : Environment}
    (search : jsstring → option nat → M (list SearchRecord)) : Prop :=
  ∀ (query : jsstring) (limit : option nat) (t : trace),
    ∃ (command : string) (items : list SearchRecord),
      search query limit t = (Normal items, t ++ [ExecSync command])
      ∧ (∀ (stdout : string) (parsed : list SearchRecord),
           execSync t command = Normal stdout →
           JSON_parse stdout = Normal (Some parsed) →
           items = parsed)
      ∧ (∀ stdout : string,
           execSync t command = Normal stdout →
           JSON_parse stdout = Normal None →
           items = []).

(** Every invocation of [gh] fails, whenever it is made. *)
Definition gh_always_fails {env : Environment} : Prop :=
  ∀ (t : trace) (command : string), gh_fails t command = true.

(** [gh] answers a command the same way whenever it is asked. *)
Definition stateless_gh {env : Environment} : Prop :=
  ∀ (t t' : trace) (command : string), execSync t command = execSync t' command.

(** What the aggregator returns for a keyword when it is the first call. *)
Definition search_results {env : Environment} (keyword : string) : ResultBundle :=
  match (comprehensiveSearch (Some keyword) []).1 with
  | Normal results => results
  | Throw _ => no_results
  end.


(** The bundle without records and with a summary of zeros. *)
Definition nothing_found : ResultBundle :=
  {| issues := []; pullRequests := []; code := []; commits := [];
     summary := Some {| issuesFound := 0; prsFound := 0;
                        codeFilesFound := 0; commitsFound := 0 |} |}.

(** ** Environments used in examples *)

(** [gh] cannot be run (not installed, not logged in, non-zero exit): every
    [execSync] throws. The language-model service answers with fixed values. *)
Definition gh_failure : js_error :=
  {| kind := UnexpectedError; message := Some "Command failed: gh" |}.

Definition syntax_error : js_error :=
  {| kind := UnexpectedError; message := Some "Unexpected end of JSON input" |}.

Definition gh_down : Environment :=
  {| env_GITHUB_ORG := None;
     execSync := fun _ _ => Throw gh_failure;
     JSON_parse := fun _ => Throw syntax_error;
     llm_extractSearchKeywords := fun _ _ _ => Normal ["auth bug"];
     llm_generateResponse := fun _ _ _ _ _ => Normal "No results.";
     llm_DEFAULT_SYSTEM_PROMPT := "You are a helpful assistant." |}.

(** A stub search client: the issue search finds two records with the same
    [url], the pull-request search finds one record with that [url] again, the
    other searches find nothing. *)
Definition first_hit : SearchRecord := rec_titled "https://github.com/o/r/issues/1" "first".
Definition second_hit : SearchRecord := rec_titled "https://github.com/o/r/issues/1" "second".

Definition stub_gh : Environment :=
  {| env_GITHUB_ORG := Some "acme";
     execSync := fun _ command =>
       if String.prefix "gh search issues" command then Normal "issues.json"
       else if String.prefix "gh search prs" command then Normal "prs.json"
       else Normal "[]";
     JSON_parse := fun text =>
       if String.eqb text "issues.json" then Normal (Some [first_hit; second_hit])
       else if String.eqb text "prs.json" then Normal (Some [first_hit])
       else if String.eqb text "[]" then Normal (Some [])
       else Throw syntax_error;
     llm_extractSearchKeywords := fun _ _ _ => Normal ["memory leak"];
     llm_generateResponse := fun _ _ _ _ _ => Normal "See issue 1.";
     llm_DEFAULT_SYSTEM_PROMPT := "You are a helpful assistant." |}.

(** The language-model service rejects a request that is too long: not a
    rejected credential, yet the digits 401 occur in the message. *)
Definition prompt_too_long : js_error :=
  {| kind := UnexpectedError;
     message := Some "400 invalid_request_error: prompt is too long: 204011 tokens > 200000 maximum" |}.

Definition llm_rejects_long_prompt : Environment :=
  {| env_GITHUB_ORG := None;
     execSync := fun _ _ => Normal "[]";
     JSON_parse := fun _ => Normal (Some []);
     llm_extractSearchKeywords := fun _ _ _ => Throw prompt_too_long;
     llm_generateResponse := fun _ _ _ _ _ => Normal "unused";
     llm_DEFAULT_SYSTEM_PROMPT := "You are a helpful assistant." |}.

(** The language-model service rejects the credential. *)
Definition invalid_key : js_error :=
  {| kind := AuthenticationError;
     message := Some "401 authentication_error: invalid x-api-key" |}.

Definition llm_rejects_key : Environment :=
  {| env_GITHUB_ORG := None;
     execSync := fun _ _ => Normal "[]";
     JSON_parse := fun _ => Normal (Some []);
     llm_extractSearchKeywords := fun _ _ _ => Throw invalid_key;
     llm_generateResponse := fun _ _ _ _ _ => Normal "unused";
     llm_DEFAULT_SYSTEM_PROMPT := "You are a helpful assistant." |}.

(** The keyword extractor finds no keyword. *)
Definition llm_no_keywords : Environment :=
  {| env_GITHUB_ORG := None;
     execSync := fun _ _ => Normal "[]";
     JSON_parse := fun _ => Normal (Some []);
     llm_extractSearchKeywords := fun _ _ _ => Normal [];
     llm_generateResponse := fun _ _ _ _ _ => Normal "Nothing to search for.";
     llm_DEFAULT_SYSTEM_PROMPT := "You are a helpful assistant." |}.

Definition chat_request (m k : string) : ChatRequest :=
  {| req_message := Some m; req_apiKey := Some k; req_systemPrompt := None |}.

Definition chat_request_without_key (m : string) : ChatRequest :=
  {| req_message := Some m; req_apiKey := None; req_systemPrompt := None |}.

(** ** Properties of [deduplicateByUrl] *)

Section dedup.
Implicit Types (seen : gset url_key) (items : list SearchRecord).

Lemma filter_seen_sublist seen items : filter_seen seen items `sublist_of` items.
Proof.
  revert seen. induction items as [|x xs IH]; intros seen; simpl; [done|].
  case_bool_decide.
  - by apply sublist_cons.
  - by apply sublist_skip.
Qed.

Lemma filter_seen_elem seen items x :
  x ∈ filter_seen seen items → x ∈ items ∧ url x ∉ seen.
Proof.
  revert seen. induction items as [|y ys IH]; intros seen; simpl.
  - by intros ?%elem_of_nil.
  - case_bool_decide as Hy.
    + intros [? ?]%IH. split; [by right|done].
    + intros [->|Hin]%elem_of_cons; [split; [by left|done]|].
      apply IH in Hin as [? ?]. split; [by right|set_solver].
Qed.

Lemma filter_seen_NoDup seen items : NoDup (url <$> filter_seen seen items).
Proof.
  revert seen. induction items as [|y ys IH]; intros seen; simpl.
  - constructor.
  - case_bool_decide; [done|].
    rewrite fmap_cons. constructor; [|done].
    intros (z & Hz & Hin)%list_elem_of_fmap.
    apply filter_seen_elem in Hin as [_ Hn]. set_solver.
Qed.

Lemma filter_seen_keys seen items k :
  k ∈ url <$> filter_seen seen items ↔ k ∈ url <$> items ∧ k ∉ seen.
Proof.
  revert seen. induction items as [|y ys IH]; intros seen; simpl.
  - set_solver.
  - case_bool_decide as Hy.
    + rewrite IH. set_solver.
    + rewrite !fmap_cons, !elem_of_cons, IH.
      destruct (decide (k = url y)) as [->|]; set_solver.
Qed.

(** Filtering a list none of whose keys repeats or was seen keeps it whole. *)
Lemma filter_seen_id seen items :
  NoDup (url <$> items) → (∀ k, k ∈ url <$> items → k ∉ seen) →
  filter_seen seen items = items.
Proof.
  revert seen. induction items as [|y ys IH]; intros seen Hnd Hs; simpl; [done|].
  rewrite fmap_cons in Hnd. apply NoDup_cons in Hnd as [Hy Hnd].
  rewrite bool_decide_eq_false_2 by (apply Hs; set_solver).
  f_equal. apply IH; [done|].
  intros k Hk. specialize (Hs k). set_solver.
Qed.

(** The callback's view of the set: after [i] records it holds the initial
    keys and the keys of those [i] records. *)
Lemma filter_seen_spec seen (pre items : list SearchRecord) :
  filter_seen (list_to_set (url <$> pre) ∪ seen) items =
  mjoin (imap (fun i item =>
                 if bool_decide (url item ∈ seen ∨
                                 url item ∈ url <$> (pre ++ take i items))
                 then [] else [item]) items).
Proof.
  revert pre. induction items as [|y ys IH]; intros pre; simpl; [done|].
  rewrite app_nil_r.
  assert (url y ∈ list_to_set (C:=gset url_key) (url <$> pre) ∪ seen ↔
          url y ∈ seen ∨ url y ∈ url <$> pre) as Hiff
    by (rewrite elem_of_union, elem_of_list_to_set; tauto).
  rewrite (bool_decide_ext _ _ Hiff).
  assert ({[url y]} ∪ (list_to_set (url <$> pre) ∪ seen)
          = list_to_set (C:=gset url_key) (url <$> (pre ++ [y])) ∪ seen) as Hset.
  { rewrite fmap_app, list_to_set_app_L. simpl. set_solver. }
  assert (imap ((fun i item =>
                   if bool_decide (url item ∈ seen ∨
                      url item ∈ url <$> (pre ++ take i (y :: ys)))
                   then [] else [item]) ∘ S) ys
          = imap (fun i item =>
                   if bool_decide (url item ∈ seen ∨
                      url item ∈ url <$> ((pre ++ [y]) ++ take i ys))
                   then [] else [item]) ys) as Himap.
  { apply imap_ext. intros i x _. simpl. by rewrite <- app_assoc. }
  rewrite Himap.
  case_bool_decide; simpl; [|f_equal]; rewrite <- IH.
  - f_equal. rewrite <- Hset. set_solver.
  - by rewrite Hset.
Qed.

Lemma deduplicateByUrl_first_occurrences items :
  deduplicateByUrl items = first_occurrences items.
Proof.
  unfold deduplicateByUrl, first_occurrences.
  pose proof (filter_seen_spec ∅ [] items) as H. simpl in H.
  rewrite (left_id_L ∅ (∪)) in H. rewrite H.
  f_equal. apply imap_ext. intros i x _. simpl.
  assert (url x ∈ (∅ : gset url_key) ∨ url x ∈ url <$> take i items ↔
          url x ∈ url <$> take i items) as Hiff by set_solver.
  by rewrite (bool_decide_ext _ _ Hiff).
Qed.

Lemma deduplicateByUrl_sublist items : deduplicateByUrl items `sublist_of` items.
Proof. apply filter_seen_sublist. Qed.

Lemma deduplicateByUrl_NoDup items : NoDup (url <$> deduplicateByUrl items).
Proof. apply filter_seen_NoDup. Qed.

Lemma deduplicateByUrl_keys items k :
  k ∈ url <$> deduplicateByUrl items ↔ k ∈ url <$> items.
Proof. unfold deduplicateByUrl. rewrite filter_seen_keys. set_solver. Qed.

Lemma deduplicateByUrl_id items :
  NoDup (url <$> items) → deduplicateByUrl items = items.
Proof. intros. apply filter_seen_id; [done|set_solver]. Qed.

Lemma deduplicateByUrl_length items :
  length (deduplicateByUrl items) ≤ length items.
Proof. apply sublist_length, deduplicateByUrl_sublist. Qed.
End dedup.

Section dedup_more.
Implicit Types (seen : gset url_key) (items : list SearchRecord).

(** Filtering a concatenation: the second part is filtered with the keys of
    the first part already in the set. *)
Lemma filter_seen_app seen (l1 l2 : list SearchRecord) :
  filter_seen seen (l1 ++ l2) =
  filter_seen seen l1 ++ filter_seen (list_to_set (url <$> l1) ∪ seen) l2.
Proof.
  revert seen. induction l1 as [|x l1 IH]; intros seen; simpl.
  - by rewrite (left_id_L ∅ (∪)).
  - case_bool_decide as Hx; rewrite IH; simpl.
    + f_equal. f_equal. set_solver.
    + f_equal. f_equal. f_equal. set_solver.
Qed.

(** Records whose keys are all in the set are all dropped. *)
Lemma filter_seen_all_seen seen items :
  (∀ k, k ∈ url <$> items → k ∈ seen) → filter_seen seen items = [].
Proof.
  induction items as [|x xs IH]; intros Hs; simpl; [done|].
  rewrite bool_decide_eq_true_2 by (apply Hs; set_solver).
  apply IH. intros k Hk. apply Hs. set_solver.
Qed.

(** No order-preserving selection without a repeated key is longer. *)
Lemma deduplicateByUrl_longest items (ys : list SearchRecord) :
  ys `sublist_of` items → NoDup (url <$> ys) →
  length ys ≤ length (deduplicateByUrl items).
Proof.
  intros Hsub Hnd.
  rewrite <- (length_fmap url ys), <- (length_fmap url (deduplicateByUrl items)).
  apply submseteq_length, NoDup_submseteq; [done|].
  intros k Hk. apply deduplicateByUrl_keys.
  apply list_elem_of_fmap in Hk as (y & -> & Hy).
  apply list_elem_of_fmap. exists y. split; [done|].
  by eapply elem_of_sublist.
Qed.

(** A repeated keyword whose searches return the same records adds nothing. *)
Lemma deduplicateByUrl_twice items :
  deduplicateByUrl (items ++ items) = deduplicateByUrl items.
Proof.
  unfold deduplicateByUrl.
  rewrite filter_seen_app.
  rewrite (filter_seen_all_seen (list_to_set (url <$> items) ∪ ∅) items);
    [by rewrite app_nil_r|].
  intros k Hk. set_solver.
Qed.
End dedup_more.

(** The value [undefined] and the string spelled the same are different keys. *)
Example undefined_is_not_a_string :
  deduplicateByUrl [rec_no_url "x"; rec "undefined"] = [rec_no_url "x"; rec "undefined"].
Proof. reflexivity. Qed.

(** C1. For every array of records, [deduplicateByUrl] returns the records
    whose key does not occur earlier in the array, in their original order: an
    order-preserving selection in which no key repeats and no key of the input
    is lost. Records without [url] share the one key [undefined], so only the
    first of them is kept. On the specification's example
    [a, b, a, c, b] the result is [a, b, c]. *)
Theorem deduplicateByUrl_keeps_first :
  (∀ items : list SearchRecord,
      deduplicateByUrl items = first_occurrences items
      ∧ deduplicateByUrl items `sublist_of` items
      ∧ NoDup (url <$> deduplicateByUrl items)
      ∧ (∀ k, k ∈ url <$> deduplicateByUrl items ↔ k ∈ url <$> items))
  ∧ (∀ (x y : SearchRecord) (l1 l2 : list SearchRecord),
      url x = None → url y = None →
      deduplicateByUrl (l1 ++ x :: l2 ++ [y]) = deduplicateByUrl (l1 ++ x :: l2))
  ∧ deduplicateByUrl [rec_no_url "x"; rec "a"; rec_no_url "y"; rec "a"]
    = [rec_no_url "x"; rec "a"]
  ∧ deduplicateByUrl [rec "a"; rec "b"; rec "a"; rec "c"; rec "b"]
    = [rec "a"; rec "b"; rec "c"].
Proof.
  split; [|split; [|split]].
  - intros items. split; [apply deduplicateByUrl_first_occurrences|].
    split; [apply deduplicateByUrl_sublist|].
    split; [apply deduplicateByUrl_NoDup|apply deduplicateByUrl_keys].
  - intros x y l1 l2 Hx Hy. unfold deduplicateByUrl.
    replace (l1 ++ x :: l2 ++ [y]) with ((l1 ++ x :: l2) ++ [y])
      by (by rewrite <- app_assoc).
    rewrite filter_seen_app. simpl.
    rewrite bool_decide_eq_true_2; [by rewrite app_nil_r|].
    rewrite Hy, <- Hx, fmap_app, fmap_cons. set_solver.
  - reflexivity.
  - reflexivity.
Qed.

(** C3. [deduplicateByUrl] is idempotent. *)
Theorem deduplicateByUrl_idempotent (items : list SearchRecord) :
  deduplicateByUrl (deduplicateByUrl items) = deduplicateByUrl items.
Proof. apply deduplicateByUrl_id, deduplicateByUrl_NoDup. Qed.

(** The loop of [filter] with the callback of [deduplicateByUrl]: the callback
    writes to the set only, the loop to the result only. *)
Lemma filter_from_seen (items seen result : loc) (xs : list SearchRecord) :
  items ≠ seen → items ≠ result → seen ≠ result →
  ∀ (n k : nat) (h : heap) (keys : gset url_key) (out : list SearchRecord),
    h !! items = Some (ArrayObj xs) →
    h !! seen = Some (SetObj keys) →
    h !! result = Some (ArrayObj out) →
    k + n = length xs →
    ∃ h' : heap,
      filter_from (seen_callback seen) items result k n h = Some h'
      ∧ h' !! items = Some (ArrayObj xs)
      ∧ h' !! result = Some (ArrayObj (out ++ filter_seen keys (drop k xs)))
      ∧ ∀ l, l ≠ seen → l ≠ result → h' !! l = h !! l.
Proof.
  intros Hs Hr Hsr. induction n as [|n IH]; intros k h keys out Hitems Hseen Hout Hlen.
  - exists h. simpl. rewrite drop_ge, app_nil_r by lia. done.
  - destruct (lookup_lt_is_Some_2 xs k) as [x Hx]; [lia|].
    simpl. rewrite Hitems, Hx.
    rewrite (drop_S _ _ _ Hx). simpl.
    unfold seen_callback, set_has. rewrite Hseen.
    destruct (bool_decide (url x ∈ keys)).
    + apply (IH (S k) h keys out); [done..|lia].
    + unfold set_add. rewrite Hseen.
      unfold array_push. rewrite lookup_insert_ne, Hout by done.
      destruct (IH (S k)
                  (<[result := ArrayObj (out ++ [x])]>
                     (<[seen := SetObj ({[url x]} ∪ keys)]> h))
                  ({[url x]} ∪ keys) (out ++ [x]))
        as (h' & Hrun & Hi & Ho & Hframe).
      * by rewrite !lookup_insert_ne.
      * by rewrite lookup_insert_ne, lookup_insert_eq.
      * by rewrite lookup_insert_eq.
      * lia.
      * exists h'. split; [done|]. split; [done|].
        split; [by rewrite Ho, <- app_assoc|].
        intros l Hl1 Hl2. by rewrite Hframe, !lookup_insert_ne.
Qed.

(** [filter] alone does not protect the array it reads: with a callback that
    empties that array, the array is empty afterwards. *)
Example array_filter_with_truncating_callback :
  ∃ (result : loc) (h' : heap),
    array_filter (truncating_callback 0) 0 {[ 0 := ArrayObj [rec "a"; rec "b"] ]}
    = Some (result, h')
    ∧ h' !! 0 = Some (ArrayObj [])
    ∧ h' !! result = Some (ArrayObj [rec "a"]).
Proof. eexists _, _. split; [reflexivity|]. split; reflexivity. Qed.

(** C10. [deduplicateByUrl] does not write to its argument. Run on the
    reference of an array, it returns the reference of an array that did not
    exist before and that holds the de-duplicated records; the argument array,
    and every other object that existed, is afterwards what it was before. *)
Theorem deduplicateByUrl_heap_frame (h : heap) (items : loc) (xs : list SearchRecord) :
  h !! items = Some (ArrayObj xs) →
  ∃ (result : loc) (h' : heap),
    deduplicateByUrl_heap items h = Some (result, h')
    ∧ h' !! items = Some (ArrayObj xs)
    ∧ result ≠ items
    ∧ h !! result = None
    ∧ h' !! result = Some (ArrayObj (deduplicateByUrl xs))
    ∧ ∀ (l : loc) (o : object), h !! l = Some o → h' !! l = Some o.
Proof.
  intros Hxs. unfold deduplicateByUrl_heap, alloc.
  set (seen := fresh (dom h)).
  set (h1 := <[seen := SetObj ∅]> h).
  assert (h !! seen = None) as Hseen by (apply not_elem_of_dom, is_fresh).
  assert (items ≠ seen) as Hne1 by (intros ->; congruence).
  unfold array_filter, alloc.
  assert (h1 !! items = Some (ArrayObj xs)) as Hxs1
    by (unfold h1; by rewrite lookup_insert_ne).
  rewrite Hxs1.
  set (result := fresh (dom h1)).
  assert (h1 !! result = None) as Hres1 by (apply not_elem_of_dom, is_fresh).
  assert (seen ≠ result) as Hne2.
  { intros Heq. rewrite <- Heq in Hres1. unfold h1 in Hres1.
    by rewrite lookup_insert_eq in Hres1. }
  assert (items ≠ result) as Hne3 by (intros ->; congruence).
  assert (h !! result = None) as Hres.
  { unfold h1 in Hres1. by rewrite lookup_insert_ne in Hres1. }
  destruct (filter_from_seen items seen result xs Hne1 Hne3 Hne2
              (length xs) 0 (<[result := ArrayObj []]> h1) ∅ [])
    as (h' & Hrun & Hi & Ho & Hframe).
  { by rewrite lookup_insert_ne. }
  { unfold h1. by rewrite lookup_insert_ne, lookup_insert_eq. }
  { by rewrite lookup_insert_eq. }
  { done. }
  rewrite Hrun. exists result, h'.
  split; [done|]. split; [done|]. split; [done|]. split; [done|].
  split; [exact Ho|].
  intros l o Hl.
  assert (l ≠ seen) by (intros ->; congruence).
  assert (l ≠ result) by (intros ->; congruence).
  rewrite Hframe by done. unfold h1. by rewrite !lookup_insert_ne.
Qed.

Lemma deduplicateByUrl_heap_frame_witness :
  ∃ (result : loc) (h' : heap),
    deduplicateByUrl_heap 0 {[ 0 := ArrayObj [rec "a"; rec "b"; rec "a"] ]}
    = Some (result, h')
    ∧ h' !! 0 = Some (ArrayObj [rec "a"; rec "b"; rec "a"])
    ∧ result ≠ 0
    ∧ ({[ 0 := ArrayObj [rec "a"; rec "b"; rec "a"] ]} : heap) !! result = None
    ∧ h' !! result = Some (ArrayObj (deduplicateByUrl [rec "a"; rec "b"; rec "a"]))
    ∧ ∀ (l : loc) (o : object),
        ({[ 0 := ArrayObj [rec "a"; rec "b"; rec "a"] ]} : heap) !! l = Some o →
        h' !! l = Some o.
Proof.
  apply (deduplicateByUrl_heap_frame
           {[ 0 := ArrayObj [rec "a"; rec "b"; rec "a"] ]} 0
           [rec "a"; rec "b"; rec "a"]).
  reflexivity.
Defined.

(** ** The search client *)

Section github_facts.
Context {env : Environment}.

Lemma bind_run {A B} (m : M A) (k : A → M B) (t : trace) :
  (m ≫= k) t = match m t with
               | (Normal a, t') => k a t'
               | (Throw e, t') => (Throw e, t')
               end.
Proof. reflexivity. Qed.

Lemma ghCommand_run (args : string) (t : trace) :
  ghCommand args t =
  (Normal (gh_value t ("gh " +:+ args)), t ++ [ExecSync ("gh " +:+ args)]).
Proof.
  unfold ghCommand, try_catch, gh_value. rewrite bind_run.
  unfold perform, lift.
  destruct (execSync t ("gh " +:+ args)) as [stdout|e]; [|done].
  by destruct (JSON_parse stdout) as [v|e].
Qed.

Lemma gh_fails_value (t : trace) (command : string) :
  gh_fails t command = true → gh_value t command = None.
Proof.
  unfold gh_fails, gh_value.
  destruct (execSync t command) as [stdout|e]; [|done].
  by destruct (JSON_parse stdout).
Qed.

(** The shape shared by the four searches. *)
Lemma search_run (args : string) (t : trace) :
  (ghCommand args ≫= λ v, mret (or_empty v)) t =
  (Normal (or_empty (gh_value t ("gh " +:+ args))),
   t ++ [ExecSync ("gh " +:+ args)]).
Proof. by rewrite bind_run, ghCommand_run. Qed.

Lemma search_fails_soft_gen (args : string) (t : trace) :
  ∃ (command : string) (items : list SearchRecord),
    (ghCommand args ≫= λ v, mret (or_empty v)) t
    = (Normal items, t ++ [ExecSync command])
    ∧ (gh_fails t command = true → items = []).
Proof.
  eexists _, _. split; [apply search_run|].
  intros Hf. by rewrite (gh_fails_value _ _ Hf).
Qed.

Lemma searchIssues_fails_soft : fails_soft searchIssues.
Proof. intros query limit t. apply search_fails_soft_gen. Qed.

Lemma searchPullRequests_fails_soft : fails_soft searchPullRequests.
Proof. intros query limit t. apply search_fails_soft_gen. Qed.

Lemma searchCode_fails_soft : fails_soft searchCode.
Proof. intros query limit t. apply search_fails_soft_gen. Qed.

Lemma searchCommits_fails_soft : fails_soft searchCommits.
Proof. intros query limit t. apply search_fails_soft_gen. Qed.

Lemma listRepos_returns (t : trace) :
  ∃ (command : string) (repos : list SearchRecord),
    listRepos t = (Normal repos, t ++ [ExecSync command])
    ∧ (gh_fails t command = true → repos = []).
Proof. apply search_fails_soft_gen. Qed.

(** The aggregator runs the four searches in order and counts. *)
Lemma comprehensiveSearch_run (query : jsstring) (t : trace) :
  ∃ (i p c m : list SearchRecord) (t1 t2 t3 t4 : trace),
    searchIssues query (Some 10) t = (Normal i, t1)
    ∧ searchPullRequests query (Some 10) t1 = (Normal p, t2)
    ∧ searchCode query (Some 10) t2 = (Normal c, t3)
    ∧ searchCommits query (Some 5) t3 = (Normal m, t4)
    ∧ comprehensiveSearch query t =
      (Normal {| issues := i; pullRequests := p; code := c; commits := m;
                 summary := Some {| issuesFound := length i;
                                    prsFound := length p;
                                    codeFilesFound := length c;
                                    commitsFound := length m |} |}, t4).
Proof.
  destruct (searchIssues_fails_soft query (Some 10) t) as (c1 & i & Hi & _).
  destruct (searchPullRequests_fails_soft query (Some 10) (t ++ [ExecSync c1]))
    as (c2 & p & Hp & _).
  destruct (searchCode_fails_soft query (Some 10)
              ((t ++ [ExecSync c1]) ++ [ExecSync c2])) as (c3 & c & Hc & _).
  destruct (searchCommits_fails_soft query (Some 5)
              (((t ++ [ExecSync c1]) ++ [ExecSync c2]) ++ [ExecSync c3]))
    as (c4 & m & Hm & _).
  exists i, p, c, m. eexists _, _, _, _.
  repeat (split; [eassumption|]).
  unfold comprehensiveSearch.
  rewrite bind_run. unfold async_call at 1. rewrite Hi.
  rewrite bind_run. unfold async_call at 1. rewrite Hp.
  rewrite bind_run. unfold async_call at 1. rewrite Hc.
  rewrite bind_run. unfold async_call at 1. rewrite Hm.
  reflexivity.
Qed.
End github_facts.

(** C4. Each of the four category searches returns normally for every query,
    limit and history of calls, after one invocation of [gh]; when that
    invocation fails (the process throws or its output does not parse) the
    search returns the empty array. *)
Theorem searches_fail_soft (env : Environment) :
  fails_soft searchIssues
  ∧ fails_soft searchPullRequests
  ∧ fails_soft searchCode
  ∧ fails_soft searchCommits.
Proof.
  split; [apply searchIssues_fails_soft|].
  split; [apply searchPullRequests_fails_soft|].
  split; [apply searchCode_fails_soft|apply searchCommits_fails_soft].
Qed.

Lemma searches_fail_soft_witness :
  fst (searchIssues (env := gh_down) (Some "auth bug") None []) = Normal []
  ∧ fst (searchCommits (env := gh_down) (Some "auth bug") (Some 5) []) = Normal [].
Proof.
  destruct (searches_fail_soft gh_down) as (Hi & _ & _ & Hm).
  split.
  - destruct (Hi (Some "auth bug") None []) as (command & items & Hrun & Hfail).
    rewrite Hrun. simpl. f_equal. apply Hfail. reflexivity.
  - destruct (Hm (Some "auth bug") (Some 5) []) as (command & items & Hrun & Hfail).
    rewrite Hrun. simpl. f_equal. apply Hfail. reflexivity.
Defined.

(** ** The routes *)

Section route_facts.
Context {env : Environment}.

Lemma comprehensiveSearch_returns (query : jsstring) (t : trace) :
  ∃ (results : ResultBundle) (t' : trace),
    comprehensiveSearch query t = (Normal results, t').
Proof.
  destruct (comprehensiveSearch_run query t)
    as (i & p & c & m & t1 & t2 & t3 & t4 & _ & _ & _ & _ & Hrun).
  eauto.
Qed.

(** The loop over the keywords runs to its end. *)
Lemma for_keywords_returns (keywords : list string) (acc : ResultBundle) (t : trace) :
  ∃ (allResults : ResultBundle) (t' : trace),
    for_keywords keywords acc t = (Normal allResults, t').
Proof.
  revert acc t. induction keywords as [|keyword rest IH]; intros acc t; simpl.
  - by eexists _, _.
  - destruct (comprehensiveSearch_returns (Some keyword) t) as (r & t1 & Hr).
    rewrite bind_run, Hr. apply IH.
Qed.

Lemma orchestrate_run (keywords : list string) (t : trace) :
  ∃ (acc : ResultBundle) (t' : trace),
    for_keywords keywords no_results t = (Normal acc, t')
    ∧ orchestrate keywords t =
      (Normal (set_summary (deduplicate_results acc)), t').
Proof.
  destruct (for_keywords_returns keywords no_results t) as (acc & t' & Hacc).
  exists acc, t'. split; [done|].
  unfold orchestrate. by rewrite bind_run, Hacc.
Qed.

(** A chat request with both fields, up to the first call. *)
Lemma post_chat_run (req : ChatRequest) :
  truthy (req_message req) = true → truthy (req_apiKey req) = true →
  serve (post_chat req) =
  match llm_extractSearchKeywords [] (req_apiKey req) (req_message req) with
  | Throw e =>
      (Normal (if message_includes e "401" || message_includes e "authentication"
               then invalid_api_key else request_failed),
       [ExtractSearchKeywords (req_apiKey req) (req_message req)])
  | Normal keywords =>
      match orchestrate keywords
              [ExtractSearchKeywords (req_apiKey req) (req_message req)] with
      | (Throw e, t) =>
          (Normal (if message_includes e "401" || message_includes e "authentication"
                   then invalid_api_key else request_failed), t)
      | (Normal allResults, t) =>
          match llm_generateResponse t (req_apiKey req) (req_message req)
                  allResults (req_systemPrompt req) with
          | Throw e =>
              (Normal (if message_includes e "401"
                          || message_includes e "authentication"
                       then invalid_api_key else request_failed),
               t ++ [GenerateResponse (req_apiKey req) (req_message req)
                       allResults (req_systemPrompt req)])
          | Normal response =>
              (Normal (res_json (ChatBody response (summary allResults) keywords)),
               t ++ [GenerateResponse (req_apiKey req) (req_message req)
                       allResults (req_systemPrompt req)])
          end
      end
  end.
Proof.
  intros Hm Hk. unfold serve, post_chat, try_catch. rewrite Hm, Hk. simpl.
  rewrite bind_run. unfold perform at 1. simpl.
  destruct (llm_extractSearchKeywords _ _ _) as [keywords|e].
  - rewrite bind_run.
    destruct (orchestrate keywords _) as [[allResults|e] t].
    + rewrite bind_run. unfold perform.
      destruct (llm_generateResponse _ _ _ _ _) as [response|e]; [done|].
      by destruct (_ || _).
    + by destruct (_ || _).
  - by destruct (_ || _).
Qed.
(** The aggregator invokes [gh] four times and makes no other call. *)
Lemma comprehensiveSearch_trace (query : jsstring) (t : trace) :
  ∃ (results : ResultBundle) (commands : list string),
    comprehensiveSearch query t = (Normal results, t ++ (ExecSync <$> commands))
    ∧ length commands = 4.
Proof.
  destruct (comprehensiveSearch_run query t)
    as (i & p & c & m & t1 & t2 & t3 & t4 & Hi & Hp & Hc & Hm & Hrun).
  destruct (searchIssues_fails_soft query (Some 10) t) as (c1 & ? & Hi' & _).
  rewrite Hi in Hi'. injection Hi' as _ ->.
  destruct (searchPullRequests_fails_soft query (Some 10) (t ++ [ExecSync c1]))
    as (c2 & ? & Hp' & _).
  rewrite Hp in Hp'. injection Hp' as _ ->.
  destruct (searchCode_fails_soft query (Some 10)
              ((t ++ [ExecSync c1]) ++ [ExecSync c2])) as (c3 & ? & Hc' & _).
  rewrite Hc in Hc'. injection Hc' as _ ->.
  destruct (searchCommits_fails_soft query (Some 5)
              (((t ++ [ExecSync c1]) ++ [ExecSync c2]) ++ [ExecSync c3]))
    as (c4 & ? & Hm' & _).
  rewrite Hm in Hm'. injection Hm' as _ ->.
  eexists _, [c1; c2; c3; c4]. split; [|done].
  rewrite Hrun. f_equal. by rewrite <- !app_assoc.
Qed.

(** The loop invokes [gh] four times per keyword and makes no other call. *)
Lemma for_keywords_trace (keywords : list string) (acc : ResultBundle) (t : trace) :
  ∃ (allResults : ResultBundle) (commands : list string),
    for_keywords keywords acc t = (Normal allResults, t ++ (ExecSync <$> commands))
    ∧ length commands = 4 * length keywords.
Proof.
  revert acc t. induction keywords as [|keyword rest IH]; intros acc t; simpl.
  - exists acc, []. by rewrite app_nil_r.
  - destruct (comprehensiveSearch_trace (Some keyword) t) as (r & cs & Hr & Hlen).
    rewrite bind_run, Hr.
    destruct (IH (push_results acc r) (t ++ (ExecSync <$> cs)))
      as (b & cs' & Hb & Hlen').
    exists b, (cs ++ cs'). split.
    + by rewrite Hb, fmap_app, app_assoc.
    + rewrite length_app. lia.
Qed.

Lemma orchestrate_trace (keywords : list string) (t : trace) :
  ∃ (allResults : ResultBundle) (commands : list string),
    orchestrate keywords t = (Normal allResults, t ++ (ExecSync <$> commands))
    ∧ length commands = 4 * length keywords
    ∧ no_repeated_url (issues allResults)
    ∧ no_repeated_url (pullRequests allResults)
    ∧ no_repeated_url (code allResults)
    ∧ no_repeated_url (commits allResults).
Proof.
  destruct (for_keywords_trace keywords no_results t) as (acc & cs & Hacc & Hlen).
  eexists _, cs. split; [unfold orchestrate; by rewrite bind_run, Hacc|].
  split; [done|]. simpl. repeat split; apply deduplicateByUrl_NoDup.
Qed.

(** X18. Whatever bundle the chat handler hands to the answer synthesizer has
    no [url] repeated within a category. *)
Lemma post_chat_synthesizer_input (req : ChatRequest)
    (apiKey message systemPrompt : jsstring) (allResults : ResultBundle) :
  GenerateResponse apiKey message allResults systemPrompt
    ∈ (serve (post_chat req)).2 →
  no_repeated_url (issues allResults)
  ∧ no_repeated_url (pullRequests allResults)
  ∧ no_repeated_url (code allResults)
  ∧ no_repeated_url (commits allResults).
Proof.
  destruct (truthy (req_message req)) eqn:Hm;
    [|unfold serve, post_chat, try_catch; rewrite Hm; simpl; by intros ?%elem_of_nil].
  destruct (truthy (req_apiKey req)) eqn:Hk;
    [|unfold serve, post_chat, try_catch; rewrite Hm, Hk; simpl; by intros ?%elem_of_nil].
  rewrite (post_chat_run req Hm Hk).
  destruct (llm_extractSearchKeywords _ _ _) as [keywords|e]; simpl;
    [|by intros [=]%list_elem_of_singleton].
  destruct (orchestrate_trace keywords
              [ExtractSearchKeywords (req_apiKey req) (req_message req)])
    as (b & cs & Hrun & _ & Hnd).
  rewrite Hrun.
  assert (GenerateResponse apiKey message allResults systemPrompt
            ∈ ([ExtractSearchKeywords (req_apiKey req) (req_message req)]
                 ++ (ExecSync <$> cs))
               ++ [GenerateResponse (req_apiKey req) (req_message req) b
                     (req_systemPrompt req)] → allResults = b) as Hin.
  { rewrite !elem_of_app, !list_elem_of_singleton, list_elem_of_fmap.
    intros [[[=]|(c & [=] & _)]|[=]]; by subst. }
  destruct (llm_generateResponse _ _ _ _ _); simpl; by intros ->%Hin.
Qed.
End route_facts.


(** C2. The bundle the orchestrator produces has, in each of its four
    category lists, no two records with the same [url]. *)
Theorem orchestrate_no_repeated_url (env : Environment)
    (keywords : list string) (t : trace) :
  ∃ (allResults : ResultBundle) (t' : trace),
    orchestrate keywords t = (Normal allResults, t')
    ∧ no_repeated_url (issues allResults)
    ∧ no_repeated_url (pullRequests allResults)
    ∧ no_repeated_url (code allResults)
    ∧ no_repeated_url (commits allResults).
Proof.
  destruct (orchestrate_run keywords t) as (acc & t' & _ & Hrun).
  eexists _, _. split; [exact Hrun|]. simpl.
  repeat split; apply deduplicateByUrl_NoDup.
Qed.

(** Across categories a [url] may repeat: the stub's issue and pull request. *)
Example same_url_in_two_categories :
  ∃ (allResults : ResultBundle),
    fst (serve (orchestrate (env := stub_gh) ["memory leak"])) = Normal allResults
    ∧ issues allResults = [first_hit]
    ∧ pullRequests allResults = [first_hit].
Proof. eexists. split; [vm_compute; reflexivity|]. split; reflexivity. Qed.

(** C8. On the empty keyword list the orchestrator makes no call at all (the
    trace is the one it started from) and produces four empty lists with a
    summary of zeros. In the chat handler: when the keyword extractor returns
    the empty list, the only calls of the request are the extraction and the
    synthesis, and the synthesizer receives that empty bundle. *)
Theorem orchestrate_no_keywords (env : Environment) :
  (∀ t : trace,
     orchestrate [] t =
     (Normal {| issues := []; pullRequests := []; code := []; commits := [];
                summary := Some {| issuesFound := 0; prsFound := 0;
                                   codeFilesFound := 0; commitsFound := 0 |} |}, t))
  ∧ (∀ req : ChatRequest,
       truthy (req_message req) = true →
       truthy (req_apiKey req) = true →
       llm_extractSearchKeywords [] (req_apiKey req) (req_message req) = Normal [] →
       (serve (post_chat req)).2 =
       [ExtractSearchKeywords (req_apiKey req) (req_message req);
        GenerateResponse (req_apiKey req) (req_message req)
          {| issues := []; pullRequests := []; code := []; commits := [];
             summary := Some {| issuesFound := 0; prsFound := 0;
                                codeFilesFound := 0; commitsFound := 0 |} |}
          (req_systemPrompt req)]).
Proof.
  split; [done|].
  intros req Hm Hk Hnone. rewrite (post_chat_run req Hm Hk), Hnone. simpl.
  by destruct (llm_generateResponse _ _ _ _ _).
Qed.

Lemma orchestrate_no_keywords_witness :
  (serve (post_chat (env := llm_no_keywords) (chat_request "hello" "sk-good"))).2 =
  [ExtractSearchKeywords (Some "sk-good") (Some "hello");
   GenerateResponse (Some "sk-good") (Some "hello")
     {| issues := []; pullRequests := []; code := []; commits := [];
        summary := Some {| issuesFound := 0; prsFound := 0;
                           codeFilesFound := 0; commitsFound := 0 |} |}
     None].
Proof.
  apply (proj2 (orchestrate_no_keywords llm_no_keywords)
           (chat_request "hello" "sk-good")); reflexivity.
Defined.

(** C7. A chat request with a message and without [apiKey] is answered 400
    with the API-key message, and no call has been made. *)
Theorem post_chat_without_apiKey (env : Environment) (req : ChatRequest) :
  truthy (req_message req) = true →
  req_apiKey req = None →
  serve (post_chat req) =
  (Normal {| status := 400;
             body := ErrorBody
               "API key is required. Please enter your Anthropic API key in settings." |},
   []).
Proof.
  intros Hm Hk. unfold serve, post_chat, try_catch. by rewrite Hm, Hk.
Qed.

Lemma post_chat_without_apiKey_witness :
  serve (post_chat (env := stub_gh) (chat_request_without_key "why is login slow?")) =
  (Normal {| status := 400;
             body := ErrorBody
               "API key is required. Please enter your Anthropic API key in settings." |},
   []).
Proof.
  apply (post_chat_without_apiKey stub_gh (chat_request_without_key "why is login slow?"));
    reflexivity.
Defined.

(** The aggregator on any value: it converts the value first. *)
Lemma comprehensiveSearch_of_run (env : Environment) (query : jsvalue) (t : trace) :
  comprehensiveSearch_of query t =
  match ToString query with
  | Normal text => comprehensiveSearch (Some text) t
  | Throw e => (Throw e, t)
  end.
Proof.
  unfold comprehensiveSearch_of. rewrite bind_run. unfold lift.
  by destruct (ToString query).
Qed.




(** The [catch] block of the chat handler looks at the message of the error
    and at nothing else: when the keyword extractor or the answer synthesizer
    throws [e], the response is the 401 exactly when the message of [e]
    contains 401 or authentication, the 500 exactly when it contains neither
    (or [e] has no message), and never a 200. *)
Theorem post_chat_classifies_by_message (env : Environment)
    (req : ChatRequest) (e : js_error) :
  truthy (req_message req) = true →
  truthy (req_apiKey req) = true →
  (llm_extractSearchKeywords [] (req_apiKey req) (req_message req) = Throw e
   ∨ ∃ (keywords : list string) (allResults : ResultBundle) (t : trace),
       llm_extractSearchKeywords [] (req_apiKey req) (req_message req)
       = Normal keywords
       ∧ orchestrate keywords
           [ExtractSearchKeywords (req_apiKey req) (req_message req)]
         = (Normal allResults, t)
       ∧ llm_generateResponse t (req_apiKey req) (req_message req) allResults
           (req_systemPrompt req) = Throw e) →
  ∃ (r : Response) (t : trace),
    serve (post_chat req) = (Normal r, t)
    ∧ (r = invalid_api_key ↔
       message_includes e "401" = true ∨ message_includes e "authentication" = true)
    ∧ (r = request_failed ↔
       message_includes e "401" = false ∧ message_includes e "authentication" = false)
    ∧ status r ≠ 200.
Proof.
  intros Hm Hk Hthrow.
  assert (∃ t, serve (post_chat req) =
               (Normal (if message_includes e "401"
                           || message_includes e "authentication"
                        then invalid_api_key else request_failed), t)) as [t Hrun].
  { rewrite (post_chat_run req Hm Hk).
    destruct Hthrow as [->|(keywords & allResults & t & -> & -> & ->)]; eauto. }
  eexists _, t. split; [exact Hrun|].
  destruct (message_includes e "401"), (message_includes e "authentication");
    simpl; (split; [|split]); try done; split; try done;
    intros; try discriminate; intuition discriminate.
Qed.

Lemma post_chat_classifies_by_message_witness :
  ∃ (r : Response) (t : trace),
    serve (post_chat (env := llm_rejects_key) (chat_request "why is login slow?" "sk-bad"))
    = (Normal r, t)
    ∧ (r = invalid_api_key ↔
       message_includes invalid_key "401" = true
       ∨ message_includes invalid_key "authentication" = true)
    ∧ (r = request_failed ↔
       message_includes invalid_key "401" = false
       ∧ message_includes invalid_key "authentication" = false)
    ∧ status r ≠ 200.
Proof.
  apply (post_chat_classifies_by_message llm_rejects_key
           (chat_request "why is login slow?" "sk-bad") invalid_key);
    [reflexivity | reflexivity | left; reflexivity].
Defined.

(** C6. The check for API key errors misfires: the extractor throws an error
    that is not a rejected credential (the prompt is too long), the digits 401
    occur in its message, and the handler answers 401 with the invalid-key
    message where every failure other than an authentication failure is to be
    answered 500. *)
Lemma post_chat_401_without_auth_failure :
  llm_extractSearchKeywords (Environment := llm_rejects_long_prompt) []
    (Some "sk-good") (Some "why is login slow?") = Throw prompt_too_long
  ∧ kind prompt_too_long ≠ AuthenticationError
  ∧ serve (post_chat (env := llm_rejects_long_prompt)
             (chat_request "why is login slow?" "sk-good"))
    = (Normal {| status := 401;
                 body := ErrorBody
                   "Invalid API key. Please check your Anthropic API key." |},
       [ExtractSearchKeywords (Some "sk-good") (Some "why is login slow?")]).
Proof. split; [reflexivity|]. split; [discriminate|reflexivity]. Qed.

(** ** [GET /api/repos] *)

(** [GET /api/repos] answers 200 with [{repos, org}] after one invocation of
    [gh], whatever [gh] does: [listRepos] catches every failure, so the
    [catch] block of the route is not reached. *)
Theorem get_repos_answers_200 (env : Environment) (t : trace) :
  ∃ (command : string) (repos : list SearchRecord),
    get_repos t = (Normal {| status := 200; body := ReposBody repos GITHUB_ORG |},
                   t ++ [ExecSync command])
    ∧ (gh_fails t command = true → repos = [])
    ∧ (∀ (stdout : string) (items : list SearchRecord),
         execSync t command = Normal stdout →
         JSON_parse stdout = Normal (Some items) →
         repos = items).
Proof.
  exists ("gh " +:+ "repo list " +:+ GITHUB_ORG +:+
          " --json name,description,url,updatedAt --limit 100"),
         (or_empty (gh_value t ("gh " +:+ "repo list " +:+ GITHUB_ORG +:+
                     " --json name,description,url,updatedAt --limit 100"))).
  split; [|split].
  - unfold get_repos, try_catch, listRepos. by rewrite bind_run, search_run.
  - intros Hf. by rewrite (gh_fails_value _ _ Hf).
  - intros stdout items Hexec Hparse. unfold gh_value. by rewrite Hexec, Hparse.
Qed.

(** C9. With [gh] failing, listing the repositories fails, and the response
    is 200 with an empty list of repositories, where the [catch] block of the
    route means to answer 500 [Failed to list repositories]. *)
Lemma get_repos_gh_down :
  gh_fails (env := gh_down) []
    "gh repo list brandnewbox --json name,description,url,updatedAt --limit 100" = true
  ∧ serve (get_repos (env := gh_down)) =
    (Normal {| status := 200; body := ReposBody [] "brandnewbox" |},
     [ExecSync "gh repo list brandnewbox --json name,description,url,updatedAt --limit 100"]).
Proof. split; reflexivity. Qed.

(** ** More on [deduplicateByUrl] *)

Section dedup_algebra.
Implicit Types (seen : gset url_key) (items : list SearchRecord).

Lemma deduplicateByUrl_key_set items :
  list_to_set (C := gset url_key) (url <$> deduplicateByUrl items)
  = list_to_set (url <$> items).
Proof.
  apply set_eq. intros k. rewrite !elem_of_list_to_set.
  apply deduplicateByUrl_keys.
Qed.

(** Filtering with a larger set: drop, from what the smaller set lets through,
    the records whose key is among the additional ones. *)
Lemma filter_seen_union (extra seen : gset url_key) items :
  filter_seen (extra ∪ seen) items
  = filter (λ item, url item ∉ extra) (filter_seen seen items).
Proof.
  revert seen. induction items as [|y ys IH]; intros seen; simpl; [done|].
  destruct (decide (url y ∈ seen)) as [Hs|Hs].
  - rewrite !bool_decide_eq_true_2 by set_solver. apply IH.
  - rewrite (bool_decide_eq_false_2 (url y ∈ seen)) by done.
    destruct (decide (url y ∈ extra)) as [He|He].
    + rewrite bool_decide_eq_true_2 by set_solver.
      rewrite filter_cons_False by (intros Hn; by apply Hn).
      rewrite <- IH. f_equal. set_solver.
    + rewrite bool_decide_eq_false_2 by set_solver.
      rewrite filter_cons_True by done.
      f_equal. rewrite <- IH. f_equal. set_solver.
Qed.

Lemma deduplicateByUrl_app (l1 l2 : list SearchRecord) :
  deduplicateByUrl (l1 ++ l2)
  = deduplicateByUrl l1
    ++ filter (λ item, url item ∉ url <$> l1) (deduplicateByUrl l2).
Proof.
  unfold deduplicateByUrl. rewrite filter_seen_app, filter_seen_union.
  f_equal. apply list_filter_iff. intros x.
  by rewrite elem_of_list_to_set.
Qed.

(** Records whose keys all occur earlier add nothing, wherever they stand. *)
Lemma deduplicateByUrl_absorb (l1 l2 l3 : list SearchRecord) :
  (∀ k, k ∈ url <$> l2 → k ∈ url <$> l1) →
  deduplicateByUrl (l1 ++ l2 ++ l3) = deduplicateByUrl (l1 ++ l3).
Proof.
  intros Hsub. unfold deduplicateByUrl. rewrite !filter_seen_app.
  rewrite (filter_seen_all_seen _ l2); simpl.
  - f_equal. f_equal. set_solver.
  - intros k Hk. apply Hsub in Hk. set_solver.
Qed.
End dedup_algebra.

Lemma deduplicateByUrl_counts_keys_aux (items : list SearchRecord) :
  length (deduplicateByUrl items)
  = size (list_to_set (C := gset url_key) (url <$> items))
  ∧ length (deduplicateByUrl items) ≤ length items.
Proof.
  split; [|apply deduplicateByUrl_length].
  rewrite <- deduplicateByUrl_key_set, size_list_to_set, length_fmap; [done|].
  apply deduplicateByUrl_NoDup.
Qed.

(** X1. The number of records [deduplicateByUrl] returns is the number of
    different keys in its argument; in particular it is at most the length of
    the argument. *)
Theorem deduplicateByUrl_counts_keys (items : list SearchRecord) :
  length (deduplicateByUrl items)
  = size (list_to_set (C := gset url_key) (url <$> items))
  ∧ length (deduplicateByUrl items) ≤ length items.
Proof.
  split; [|apply sublist_length, deduplicateByUrl_sublist].
  apply deduplicateByUrl_counts_keys_aux.
Qed.

(** X2. No order-preserving selection of the argument in which no key repeats
    is longer than the result of [deduplicateByUrl]. *)
Theorem deduplicateByUrl_is_longest (items ys : list SearchRecord) :
  ys `sublist_of` items →
  NoDup (url <$> ys) →
  length ys ≤ length (deduplicateByUrl items).
Proof.
  intros Hsub Hnd.
  rewrite <- (length_fmap url ys), (proj1 (deduplicateByUrl_counts_keys_aux items)).
  rewrite <- (size_list_to_set (C := gset url_key) (url <$> ys)) by done.
  apply subseteq_size. intros k. rewrite !elem_of_list_to_set.
  intros (y & -> & Hy)%list_elem_of_fmap.
  apply list_elem_of_fmap. exists y. split; [done|].
  by eapply elem_of_sublist.
Qed.

Lemma deduplicateByUrl_is_longest_witness :
  length [rec "b"; rec "a"] ≤ length (deduplicateByUrl [rec "a"; rec "b"; rec "a"]).
Proof.
  apply (deduplicateByUrl_is_longest [rec "a"; rec "b"; rec "a"] [rec "b"; rec "a"]).
  - apply sublist_cons, sublist_skip, sublist_skip, sublist_nil.
  - apply (bool_decide_unpack (NoDup (url <$> [rec "b"; rec "a"]))). reflexivity.
Defined.

(** X3. [deduplicateByUrl] returns its argument unchanged exactly when no key
    occurs twice in it. *)
Theorem deduplicateByUrl_unchanged_iff (items : list SearchRecord) :
  deduplicateByUrl items = items ↔ NoDup (url <$> items).
Proof.
  split.
  - intros <-. apply deduplicateByUrl_NoDup.
  - apply deduplicateByUrl_id.
Qed.

(** X4. De-duplicating a concatenation: the de-duplicated first part, followed
    by the records of the de-duplicated second part whose key does not occur in
    the first part. Hence de-duplicating the parts first changes nothing. *)
Theorem deduplicateByUrl_concat (l1 l2 : list SearchRecord) :
  deduplicateByUrl (l1 ++ l2)
  = deduplicateByUrl l1
    ++ filter (λ item, url item ∉ url <$> l1) (deduplicateByUrl l2)
  ∧ deduplicateByUrl (deduplicateByUrl l1 ++ deduplicateByUrl l2)
    = deduplicateByUrl (l1 ++ l2).
Proof.
  split; [apply deduplicateByUrl_app|].
  rewrite !deduplicateByUrl_app.
  rewrite !(deduplicateByUrl_id (deduplicateByUrl _)) by apply deduplicateByUrl_NoDup.
  f_equal. apply list_filter_iff. intros x.
  by rewrite deduplicateByUrl_keys.
Qed.

(** X5. Records whose keys all occur earlier in the array add nothing to the
    result, whatever follows them. *)
Theorem deduplicateByUrl_absorbs_known_keys (l1 l2 l3 : list SearchRecord) :
  (∀ k, k ∈ url <$> l2 → k ∈ url <$> l1) →
  deduplicateByUrl (l1 ++ l2 ++ l3) = deduplicateByUrl (l1 ++ l3).
Proof.
  intros Hknown. unfold deduplicateByUrl. rewrite !filter_seen_app.
  rewrite (filter_seen_all_seen _ l2); simpl.
  - f_equal. f_equal. set_solver.
  - intros k Hk. apply Hknown in Hk. set_solver.
Qed.

Lemma deduplicateByUrl_absorbs_known_keys_witness :
  deduplicateByUrl ([rec "a"; rec "b"] ++ [rec_titled "a" "again"] ++ [rec "c"])
  = deduplicateByUrl ([rec "a"; rec "b"] ++ [rec "c"]).
Proof.
  apply (deduplicateByUrl_absorbs_known_keys
           [rec "a"; rec "b"] [rec_titled "a" "again"] [rec "c"]).
  intros k Hk. apply list_elem_of_singleton in Hk as ->. apply list_elem_of_here.
Defined.

(** ** More on the search client *)

Section github_more.
Context {env : Environment}.

Lemma search_passes_on_output_gen (args : string) (t : trace) :
  ∃ (command : string) (items : list SearchRecord),
    (ghCommand args ≫= λ v, mret (or_empty v)) t
    = (Normal items, t ++ [ExecSync command])
    ∧ (∀ (stdout : string) (parsed : list SearchRecord),
         execSync t command = Normal stdout →
         JSON_parse stdout = Normal (Some parsed) →
         items = parsed)
    ∧ (∀ stdout : string,
         execSync t command = Normal stdout →
         JSON_parse stdout = Normal None →
         items = []).
Proof.
  eexists _, _. split; [apply search_run|]. split.
  - intros stdout parsed Hexec Hparse. unfold gh_value. by rewrite Hexec, Hparse.
  - intros stdout Hexec Hparse. unfold gh_value. by rewrite Hexec, Hparse.
Qed.

Lemma ghCommandRaw_run (args : string) (t : trace) :
  ghCommandRaw args t =
  (Normal match execSync t ("gh " +:+ args) with
          | Normal stdout => Some stdout
          | Throw _ => None
          end,
   t ++ [ExecSync ("gh " +:+ args)]).
Proof.
  unfold ghCommandRaw, try_catch. rewrite bind_run. unfold perform.
  by destruct (execSync t ("gh " +:+ args)).
Qed.

(** With every invocation failing, a search returns the empty array. *)
Lemma search_empty_when_gh_fails (search : jsstring → option nat → M (list SearchRecord))
    (query : jsstring) (limit : option nat) (t : trace) :
  fails_soft search → gh_always_fails →
  ∃ command : string, search query limit t = (Normal [], t ++ [ExecSync command]).
Proof.
  intros Hsoft Hdown.
  destruct (Hsoft query limit t) as (command & items & Hrun & Hfail).
  exists command. by rewrite Hrun, (Hfail (Hdown t command)).
Qed.

Lemma comprehensiveSearch_when_gh_fails (query : jsstring) (t : trace) :
  gh_always_fails →
  ∃ commands : list string,
    comprehensiveSearch query t = (Normal nothing_found, t ++ (ExecSync <$> commands))
    ∧ length commands = 4.
Proof.
  intros Hdown.
  destruct (search_empty_when_gh_fails searchIssues query (Some 10) t
              searchIssues_fails_soft Hdown) as (c1 & H1).
  destruct (search_empty_when_gh_fails searchPullRequests query (Some 10)
              (t ++ [ExecSync c1]) searchPullRequests_fails_soft Hdown) as (c2 & H2).
  destruct (search_empty_when_gh_fails searchCode query (Some 10)
              ((t ++ [ExecSync c1]) ++ [ExecSync c2]) searchCode_fails_soft Hdown)
    as (c3 & H3).
  destruct (search_empty_when_gh_fails searchCommits query (Some 5)
              (((t ++ [ExecSync c1]) ++ [ExecSync c2]) ++ [ExecSync c3])
              searchCommits_fails_soft Hdown) as (c4 & H4).
  exists [c1; c2; c3; c4]. split; [|done].
  unfold comprehensiveSearch.
  rewrite bind_run. unfold async_call at 1. rewrite H1.
  rewrite bind_run. unfold async_call at 1. rewrite H2.
  rewrite bind_run. unfold async_call at 1. rewrite H3.
  rewrite bind_run. unfold async_call at 1. rewrite H4.
  simpl. by rewrite <- !app_assoc.
Qed.
End github_more.

(** X6. The organization scope is the environment variable when that is a
    non-empty string, and [brandnewbox] when it is unset or empty; it is never
    the empty string. *)
Theorem GITHUB_ORG_default (env : Environment) :
  (truthy env_GITHUB_ORG = true → env_GITHUB_ORG = Some GITHUB_ORG)
  ∧ (truthy env_GITHUB_ORG = false → GITHUB_ORG = "brandnewbox")
  ∧ GITHUB_ORG ≠ EmptyString.
Proof.
  unfold GITHUB_ORG, or_else.
  destruct env_GITHUB_ORG as [[|a s]|]; simpl; repeat split; try done.
Qed.

(** X7. When [gh] runs and prints JSON, each of the four category searches
    returns what it printed: the parsed array itself reaches the caller, and
    the text [null] gives the empty array. *)
Theorem searches_pass_on_output (env : Environment) :
  passes_on_output searchIssues
  ∧ passes_on_output searchPullRequests
  ∧ passes_on_output searchCode
  ∧ passes_on_output searchCommits.
Proof.
  repeat split; intros query limit t; apply search_passes_on_output_gen.
Qed.

(** X8. [getFileContents] returns normally after one invocation of [gh]: the
    output of the command as it is, without parsing, and [null] when the
    invocation throws. *)
Theorem getFileContents_raw (env : Environment)
    (repoFullName filePath : jsstring) (t : trace) :
  ∃ (command : string) (contents : option string),
    getFileContents repoFullName filePath t
    = (Normal contents, t ++ [ExecSync command])
    ∧ (∀ stdout : string, execSync t command = Normal stdout → contents = Some stdout)
    ∧ (∀ e : js_error, execSync t command = Throw e → contents = None).
Proof.
  eexists _, _. split; [|split].
  - unfold getFileContents. rewrite bind_run, ghCommandRaw_run. reflexivity.
  - intros stdout Hexec. by rewrite Hexec.
  - intros e Hexec. by rewrite Hexec.
Qed.

(** X9. The aggregator is the four category searches made in the order issues,
    pull requests, code, commits, with limits 10, 10, 10 and 5, each after the
    invocation of the one before; it returns normally with their four results
    and with their lengths as the summary. *)
Theorem comprehensiveSearch_is_four_searches (env : Environment)
    (query : jsstring) (t : trace) :
  ∃ (i p c m : list SearchRecord) (c1 c2 c3 c4 : string),
    searchIssues query (Some 10) t = (Normal i, t ++ [ExecSync c1])
    ∧ searchPullRequests query (Some 10) (t ++ [ExecSync c1])
      = (Normal p, t ++ [ExecSync c1; ExecSync c2])
    ∧ searchCode query (Some 10) (t ++ [ExecSync c1; ExecSync c2])
      = (Normal c, t ++ [ExecSync c1; ExecSync c2; ExecSync c3])
    ∧ searchCommits query (Some 5) (t ++ [ExecSync c1; ExecSync c2; ExecSync c3])
      = (Normal m, t ++ [ExecSync c1; ExecSync c2; ExecSync c3; ExecSync c4])
    ∧ comprehensiveSearch query t =
      (Normal {| issues := i; pullRequests := p; code := c; commits := m;
                 summary := Some {| issuesFound := length i;
                                    prsFound := length p;
                                    codeFilesFound := length c;
                                    commitsFound := length m |} |},
       t ++ [ExecSync c1; ExecSync c2; ExecSync c3; ExecSync c4]).
Proof.
  destruct (searchIssues_fails_soft query (Some 10) t) as (c1 & i & Hi & _).
  destruct (searchPullRequests_fails_soft query (Some 10) (t ++ [ExecSync c1]))
    as (c2 & p & Hp & _).
  destruct (searchCode_fails_soft query (Some 10)
              ((t ++ [ExecSync c1]) ++ [ExecSync c2])) as (c3 & c & Hc & _).
  destruct (searchCommits_fails_soft query (Some 5)
              (((t ++ [ExecSync c1]) ++ [ExecSync c2]) ++ [ExecSync c3]))
    as (c4 & m & Hm & _).
  exists i, p, c, m, c1, c2, c3, c4.
  assert (comprehensiveSearch query t =
          (Normal {| issues := i; pullRequests := p; code := c; commits := m;
                     summary := Some {| issuesFound := length i;
                                        prsFound := length p;
                                        codeFilesFound := length c;
                                        commitsFound := length m |} |},
           (((t ++ [ExecSync c1]) ++ [ExecSync c2]) ++ [ExecSync c3])
             ++ [ExecSync c4])) as Hrun.
  { unfold comprehensiveSearch.
    rewrite bind_run. unfold async_call at 1. rewrite Hi.
    rewrite bind_run. unfold async_call at 1. rewrite Hp.
    rewrite bind_run. unfold async_call at 1. rewrite Hc.
    rewrite bind_run. unfold async_call at 1. rewrite Hm.
    reflexivity. }
  repeat (rewrite <- app_assoc in Hp; simpl in Hp).
  repeat (rewrite <- app_assoc in Hc; simpl in Hc).
  repeat (rewrite <- app_assoc in Hm; simpl in Hm).
  repeat (rewrite <- app_assoc in Hrun; simpl in Hrun).
  split; [exact Hi|]. split; [exact Hp|]. split; [exact Hc|].
  split; [exact Hm|exact Hrun].
Qed.

(** X10. When every invocation of [gh] fails, the aggregator still returns
    normally after its four invocations: four empty lists and a summary of
    zeros. *)
Theorem comprehensiveSearch_gh_down (env : Environment)
    (query : jsstring) (t : trace) :
  gh_always_fails →
  ∃ commands : list string,
    comprehensiveSearch query t = (Normal nothing_found, t ++ (ExecSync <$> commands))
    ∧ length commands = 4.
Proof. intros Hdown. by apply comprehensiveSearch_when_gh_fails. Qed.

Lemma comprehensiveSearch_gh_down_witness :
  ∃ commands : list string,
    comprehensiveSearch (env := gh_down) (Some "auth bug") []
    = (Normal nothing_found, [] ++ (ExecSync <$> commands))
    ∧ length commands = 4.
Proof.
  apply (comprehensiveSearch_gh_down gh_down (Some "auth bug") []).
  intros t command. reflexivity.
Defined.

(** ** More on the orchestrator *)

Section orchestrate_more.
Context {env : Environment}.

Lemma for_keywords_when_gh_fails (keywords : list string) (t : trace) :
  gh_always_fails →
  ∃ commands : list string,
    for_keywords keywords no_results t
    = (Normal no_results, t ++ (ExecSync <$> commands))
    ∧ length commands = 4 * length keywords.
Proof.
  intros Hdown. revert t. induction keywords as [|keyword rest IH]; intros t; simpl.
  - exists []. by rewrite app_nil_r.
  - destruct (comprehensiveSearch_when_gh_fails (Some keyword) t Hdown)
      as (cs & Hrun & Hlen).
    rewrite bind_run, Hrun.
    destruct (IH (t ++ (ExecSync <$> cs))) as (cs' & Hrest & Hlen').
    exists (cs ++ cs'). split.
    + change (push_results no_results nothing_found) with no_results.
      by rewrite Hrest, fmap_app, app_assoc.
    + rewrite length_app. lia.
Qed.

Lemma gh_value_stateless (t t' : trace) (command : string) :
  stateless_gh → gh_value t command = gh_value t' command.
Proof. intros Hs. unfold gh_value. by rewrite (Hs t t' command). Qed.

Lemma search_stateless_gen (args : string) (t t' : trace) :
  stateless_gh →
  ((ghCommand args ≫= λ v, mret (or_empty v)) t).1
  = ((ghCommand args ≫= λ v, mret (or_empty v)) t').1.
Proof.
  intros Hs. rewrite !search_run. simpl. by rewrite (gh_value_stateless t t').
Qed.

Lemma searchIssues_stateless (query : jsstring) (limit : option nat) (t t' : trace) :
  stateless_gh → (searchIssues query limit t).1 = (searchIssues query limit t').1.
Proof. intros Hs. by apply search_stateless_gen. Qed.

Lemma searchPullRequests_stateless (query : jsstring) (limit : option nat) (t t' : trace) :
  stateless_gh →
  (searchPullRequests query limit t).1 = (searchPullRequests query limit t').1.
Proof. intros Hs. by apply search_stateless_gen. Qed.

Lemma searchCode_stateless (query : jsstring) (limit : option nat) (t t' : trace) :
  stateless_gh → (searchCode query limit t).1 = (searchCode query limit t').1.
Proof. intros Hs. by apply search_stateless_gen. Qed.

Lemma searchCommits_stateless (query : jsstring) (limit : option nat) (t t' : trace) :
  stateless_gh → (searchCommits query limit t).1 = (searchCommits query limit t').1.
Proof. intros Hs. by apply search_stateless_gen. Qed.

(** With a stateless [gh], what the aggregator returns does not depend on the
    calls made before. *)
Lemma comprehensiveSearch_stateless (query : jsstring) (t t' : trace) :
  stateless_gh →
  (comprehensiveSearch query t).1 = (comprehensiveSearch query t').1.
Proof.
  intros Hs.
  destruct (comprehensiveSearch_run query t)
    as (i & p & c & m & t1 & t2 & t3 & t4 & Hi & Hp & Hc & Hm & ->).
  destruct (comprehensiveSearch_run query t')
    as (i' & p' & c' & m' & t1' & t2' & t3' & t4' & Hi' & Hp' & Hc' & Hm' & ->).
  pose proof (searchIssues_stateless query (Some 10) t t' Hs) as Ei.
  pose proof (searchPullRequests_stateless query (Some 10) t1 t1' Hs) as Ep.
  pose proof (searchCode_stateless query (Some 10) t2 t2' Hs) as Ec.
  pose proof (searchCommits_stateless query (Some 5) t3 t3' Hs) as Em.
  rewrite Hi, Hi' in Ei. rewrite Hp, Hp' in Ep. rewrite Hc, Hc' in Ec.
  rewrite Hm, Hm' in Em. simpl in *. by simplify_eq.
Qed.

Lemma comprehensiveSearch_search_results (keyword : string) (t : trace) :
  stateless_gh →
  (comprehensiveSearch (Some keyword) t).1 = Normal (search_results keyword).
Proof.
  intros Hs. unfold search_results.
  rewrite (comprehensiveSearch_stateless (Some keyword) t [] Hs).
  destruct (comprehensiveSearch_returns (Some keyword) []) as (r & t' & Hr).
  by rewrite Hr.
Qed.

(** With a stateless [gh], the loop pushes the results of the keywords, in
    order, onto the accumulator. *)
Lemma for_keywords_stateless (keywords : list string) (acc : ResultBundle) (t : trace) :
  stateless_gh →
  (for_keywords keywords acc t).1
  = Normal (foldl push_results acc (search_results <$> keywords)).
Proof.
  intros Hs. revert acc t. induction keywords as [|keyword rest IH]; intros acc t;
    simpl; [done|].
  rewrite bind_run.
  pose proof (comprehensiveSearch_search_results keyword t Hs) as Hr.
  destruct (comprehensiveSearch (Some keyword) t) as [[r|e] t1]; simpl in Hr; [|done].
  injection Hr as ->. apply IH.
Qed.

Lemma foldl_push_results (acc : ResultBundle) (rs : list ResultBundle) :
  foldl push_results acc rs =
  {| issues := issues acc ++ mjoin (issues <$> rs);
     pullRequests := pullRequests acc ++ mjoin (pullRequests <$> rs);
     code := code acc ++ mjoin (code <$> rs);
     commits := commits acc ++ mjoin (commits <$> rs);
     summary := summary acc |}.
Proof.
  revert acc. induction rs as [|r rs IH]; intros acc; simpl.
  - rewrite !app_nil_r. by destruct acc.
  - rewrite IH. simpl. by rewrite <- !app_assoc.
Qed.

(** The bundle of the orchestrator, with a stateless [gh]. *)
Lemma orchestrate_stateless (keywords : list string) (t : trace) :
  stateless_gh →
  (orchestrate keywords t).1 =
  Normal (set_summary
    {| issues := deduplicateByUrl (mjoin (issues ∘ search_results <$> keywords));
       pullRequests :=
         deduplicateByUrl (mjoin (pullRequests ∘ search_results <$> keywords));
       code := deduplicateByUrl (mjoin (code ∘ search_results <$> keywords));
       commits := deduplicateByUrl (mjoin (commits ∘ search_results <$> keywords));
       summary := None |}).
Proof.
  intros Hs. unfold orchestrate. rewrite bind_run.
  pose proof (for_keywords_stateless keywords no_results t Hs) as Hrun.
  destruct (for_keywords keywords no_results t) as [[acc|e] t1]; simpl in Hrun; [|done].
  injection Hrun as ->. simpl.
  rewrite foldl_push_results. unfold deduplicate_results. simpl.
  by rewrite <- !list_fmap_compose.
Qed.

(** The results of a keyword are among the results of a list it occurs in. *)
Lemma keys_of_member (field : ResultBundle → list SearchRecord)
    (keyword : string) (keywords : list string) (k : url_key) :
  keyword ∈ keywords →
  k ∈ url <$> field (search_results keyword) →
  k ∈ url <$> mjoin (field ∘ search_results <$> keywords).
Proof.
  intros Hin (x & -> & Hx)%list_elem_of_fmap.
  apply list_elem_of_fmap. exists x. split; [done|].
  apply list_elem_of_join. exists (field (search_results keyword)). split; [done|].
  apply list_elem_of_fmap. by exists keyword.
Qed.

Lemma deduplicateByUrl_repeated_keyword (field : ResultBundle → list SearchRecord)
    (keyword : string) (before after : list string) :
  keyword ∈ before →
  deduplicateByUrl (mjoin (field ∘ search_results <$> before ++ keyword :: after))
  = deduplicateByUrl (mjoin (field ∘ search_results <$> before ++ after)).
Proof.
  intros Hin. rewrite !fmap_app, fmap_cons, !join_app. simpl.
  apply deduplicateByUrl_absorb. intros k. by apply keys_of_member.
Qed.
End orchestrate_more.


(** X12. When every invocation of [gh] fails, the orchestrator goes through
    all the keywords all the same, four invocations each, and returns four
    empty lists with a summary of zeros. *)
Theorem orchestrate_gh_down (env : Environment) (keywords : list string) (t : trace) :
  gh_always_fails →
  ∃ commands : list string,
    orchestrate keywords t = (Normal nothing_found, t ++ (ExecSync <$> commands))
    ∧ length commands = 4 * length keywords.
Proof.
  intros Hdown.
  destruct (for_keywords_when_gh_fails keywords t Hdown) as (cs & Hrun & Hlen).
  exists cs. split; [|done].
  unfold orchestrate. by rewrite bind_run, Hrun.
Qed.

Lemma orchestrate_gh_down_witness :
  ∃ commands : list string,
    orchestrate (env := gh_down) ["auth bug"; "login"] []
    = (Normal nothing_found, [] ++ (ExecSync <$> commands))
    ∧ length commands = 4 * length ["auth bug"; "login"].
Proof.
  apply (orchestrate_gh_down gh_down ["auth bug"; "login"] []).
  intros t command. reflexivity.
Defined.

(** X13. With a [gh] that answers a command the same way whenever asked, each
    list of the orchestrator's bundle is the de-duplication of the results of
    the keywords for that category, concatenated in keyword order. *)
Theorem orchestrate_merges_in_order (env : Environment)
    (keywords : list string) (t : trace) :
  stateless_gh →
  ∃ allResults : ResultBundle,
    (orchestrate keywords t).1 = Normal allResults
    ∧ issues allResults
      = deduplicateByUrl (mjoin (issues ∘ search_results <$> keywords))
    ∧ pullRequests allResults
      = deduplicateByUrl (mjoin (pullRequests ∘ search_results <$> keywords))
    ∧ code allResults
      = deduplicateByUrl (mjoin (code ∘ search_results <$> keywords))
    ∧ commits allResults
      = deduplicateByUrl (mjoin (commits ∘ search_results <$> keywords)).
Proof.
  intros Hs. eexists. split; [by apply orchestrate_stateless|].
  by repeat split.
Qed.

Lemma orchestrate_merges_in_order_witness :
  ∃ allResults : ResultBundle,
    (orchestrate (env := stub_gh) ["memory leak"; "crash"] []).1 = Normal allResults
    ∧ issues allResults
      = deduplicateByUrl
          (mjoin (issues ∘ search_results (env := stub_gh) <$> ["memory leak"; "crash"]))
    ∧ pullRequests allResults
      = deduplicateByUrl
          (mjoin (pullRequests ∘ search_results (env := stub_gh)
                    <$> ["memory leak"; "crash"]))
    ∧ code allResults
      = deduplicateByUrl
          (mjoin (code ∘ search_results (env := stub_gh) <$> ["memory leak"; "crash"]))
    ∧ commits allResults
      = deduplicateByUrl
          (mjoin (commits ∘ search_results (env := stub_gh) <$> ["memory leak"; "crash"])).
Proof.
  apply (orchestrate_merges_in_order stub_gh ["memory leak"; "crash"] []).
  intros t t' command. reflexivity.
Defined.

(** X14. With such a [gh], a keyword that occurred before contributes nothing:
    the orchestrator's bundle is the same with and without the repetition. *)
Theorem orchestrate_repeated_keyword (env : Environment)
    (keyword : string) (before after : list string) (t t' : trace) :
  stateless_gh →
  keyword ∈ before →
  (orchestrate (before ++ keyword :: after) t).1
  = (orchestrate (before ++ after) t').1.
Proof.
  intros Hs Hin. rewrite !orchestrate_stateless by done.
  by rewrite !(deduplicateByUrl_repeated_keyword _ keyword before after).
Qed.

Lemma orchestrate_repeated_keyword_witness :
  (orchestrate (env := stub_gh) (["auth bug"] ++ "auth bug" :: []) []).1
  = (orchestrate (env := stub_gh) (["auth bug"] ++ []) []).1.
Proof.
  apply (orchestrate_repeated_keyword stub_gh "auth bug" ["auth bug"] [] [] []).
  - intros t t' command. reflexivity.
  - apply list_elem_of_here.
Defined.

(** ** More on the routes *)

(** X15. A chat request without a message, or with an empty one, is answered
    400 [Message is required], whatever else it carries, and no call is
    made. *)
Theorem post_chat_without_message (env : Environment) (req : ChatRequest) :
  truthy (req_message req) = false →
  serve (post_chat req) =
  (Normal {| status := 400; body := ErrorBody "Message is required" |}, []).
Proof.
  intros Hm. unfold serve, post_chat, try_catch. by rewrite Hm.
Qed.

Lemma post_chat_without_message_witness :
  serve (post_chat (env := stub_gh)
           {| req_message := Some EmptyString; req_apiKey := Some "sk-good";
              req_systemPrompt := None |}) =
  (Normal {| status := 400; body := ErrorBody "Message is required" |}, []).
Proof.
  apply (post_chat_without_message stub_gh
           {| req_message := Some EmptyString; req_apiKey := Some "sk-good";
              req_systemPrompt := None |}).
  reflexivity.
Defined.

(** X16. The chat handler always responds, with status 200, 400, 401 or 500;
    the status is 400 exactly when the message or the API key is missing or
    empty, and then no call has been made. *)
Theorem post_chat_statuses (env : Environment) (req : ChatRequest) :
  ∃ (r : Response) (t : trace),
    serve (post_chat req) = (Normal r, t)
    ∧ (status r = 200 ∨ status r = 400 ∨ status r = 401 ∨ status r = 500)
    ∧ (status r = 400 ↔
       truthy (req_message req) = false ∨ truthy (req_apiKey req) = false)
    ∧ (status r = 400 → t = []).
Proof.
  destruct (truthy (req_message req)) eqn:Hm.
  - destruct (truthy (req_apiKey req)) eqn:Hk.
    + rewrite (post_chat_run req Hm Hk).
      destruct (llm_extractSearchKeywords _ _ _) as [keywords|e].
      * destruct (orchestrate keywords _) as [[allResults|e] t].
        -- destruct (llm_generateResponse _ _ _ _ _) as [response|e].
           ++ eexists _, _. split; [done|]. simpl. intuition discriminate.
           ++ eexists _, _. split; [done|].
              destruct (_ || _); simpl; intuition discriminate.
        -- eexists _, _. split; [done|].
           destruct (_ || _); simpl; intuition discriminate.
      * eexists _, _. split; [done|].
        destruct (_ || _); simpl; intuition discriminate.
    + eexists _, _. split.
      * unfold serve, post_chat, try_catch. by rewrite Hm, Hk.
      * simpl. intuition discriminate.
  - eexists _, _. split.
    + unfold serve, post_chat, try_catch. by rewrite Hm.
    + simpl. intuition discriminate.
Qed.



(** X19. When every invocation of [gh] fails and the language-model service
    works, the chat is answered all the same: 200 with the synthesizer's
    answer and a summary of zeros. *)
Theorem post_chat_gh_down (env : Environment)
    (req : ChatRequest) (keywords : list string) (response : string) :
  gh_always_fails →
  truthy (req_message req) = true →
  truthy (req_apiKey req) = true →
  llm_extractSearchKeywords [] (req_apiKey req) (req_message req) = Normal keywords →
  (∀ t : trace,
     llm_generateResponse t (req_apiKey req) (req_message req) nothing_found
       (req_systemPrompt req) = Normal response) →
  (serve (post_chat req)).1 =
  Normal {| status := 200;
            body := ChatBody response
                      (Some {| issuesFound := 0; prsFound := 0;
                               codeFilesFound := 0; commitsFound := 0 |})
                      keywords |}.
Proof.
  intros Hdown Hm Hk Hkw Hresp.
  destruct (for_keywords_when_gh_fails keywords
              [ExtractSearchKeywords (req_apiKey req) (req_message req)] Hdown)
    as (cs & Hrun & _).
  rewrite (post_chat_run req Hm Hk), Hkw.
  unfold orchestrate. rewrite bind_run, Hrun. simpl.
  change (set_summary (deduplicate_results no_results)) with nothing_found.
  by rewrite Hresp.
Qed.

Lemma post_chat_gh_down_witness :
  (serve (post_chat (env := gh_down) (chat_request "why" "sk-good"))).1 =
  Normal {| status := 200;
            body := ChatBody "No results."
                      (Some {| issuesFound := 0; prsFound := 0;
                               codeFilesFound := 0; commitsFound := 0 |})
                      ["auth bug"] |}.
Proof.
  apply (post_chat_gh_down gh_down (chat_request "why" "sk-good") ["auth bug"]
           "No results."); try reflexivity.
  intros t command. reflexivity.
Defined.

(** X20. A search request whose query is missing or falsy (absent, [null],
    [false], zero, the empty string) is answered 400 [Query is required], and
    no call is made. *)
Theorem post_search_without_query (env : Environment) (req : SearchRequest) :
  js_truthy (req_query req) = false →
  serve (post_search req) =
  (Normal {| status := 400; body := ErrorBody "Query is required" |}, []).
Proof.
  intros Hq. unfold serve, post_search, try_catch. by rewrite Hq.
Qed.

Lemma post_search_without_query_witness :
  serve (post_search (env := stub_gh) {| req_query := VUndefined |}) =
  (Normal {| status := 400; body := ErrorBody "Query is required" |}, []).
Proof.
  apply (post_search_without_query stub_gh {| req_query := VUndefined |}). reflexivity.
Defined.

(** A query that is an object with a property [toString] cannot be
    interpolated: the route answers 500 before any invocation of [gh]. *)
Example post_search_unconvertible_query :
  serve (post_search (env := stub_gh)
           {| req_query := VObject [("toString", VNumber "1")] |}) =
  (Normal {| status := 500; body := ErrorBody "Search failed" |}, []).
Proof. reflexivity. Qed.

(** X21. The search route always responds, and its status is decided by the
    query alone, never by [gh]: 400 when the query is falsy; 500
    [Search failed], before any invocation of [gh], when the query is truthy
    and its conversion to a string throws; 200, after exactly four
    invocations of [gh] whatever these do, when the conversion yields a
    string. *)
Theorem post_search_statuses (env : Environment) (req : SearchRequest) :
  ∃ (r : Response) (t : trace),
    serve (post_search req) = (Normal r, t)
    ∧ (status r = 400 ↔ js_truthy (req_query req) = false)
    ∧ (status r = 500 ↔
       js_truthy (req_query req) = true ∧ ∃ e, ToString (req_query req) = Throw e)
    ∧ (status r = 200 ↔
       js_truthy (req_query req) = true
       ∧ ∃ text, ToString (req_query req) = Normal text)
    ∧ (status r = 500 → body r = ErrorBody "Search failed" ∧ t = [])
    ∧ (status r = 200 →
       ∃ commands : list string, t = ExecSync <$> commands ∧ length commands = 4).
Proof.
  destruct (js_truthy (req_query req)) eqn:Hq.
  - destruct (ToString (req_query req)) as [text|e] eqn:Hconv.
    + destruct (comprehensiveSearch_trace (Some text) [])
        as (results & cs & Hrun & Hlen).
      eexists _, _. split.
      * unfold serve, post_search, try_catch. rewrite Hq. simpl.
        by rewrite bind_run, comprehensiveSearch_of_run, Hconv, Hrun.
      * simpl. split; [split; discriminate|].
        split; [split; [discriminate|by intros [_ [? ?]]]|].
        split; [split; [by eauto|done]|].
        split; [discriminate|]. intros _. by exists cs.
    + eexists _, _. split.
      * unfold serve, post_search, try_catch. rewrite Hq. simpl.
        by rewrite bind_run, comprehensiveSearch_of_run, Hconv.
      * simpl. split; [split; discriminate|].
        split; [split; [by eauto|done]|].
        split; [split; [discriminate|by intros [_ [? ?]]]|].
        split; [done|discriminate].
  - eexists _, _. split.
    + unfold serve, post_search, try_catch. by rewrite Hq.
    + simpl. split; [done|].
      split; [split; [discriminate|by intros [? _]]|].
      split; [split; [discriminate|by intros [? _]]|].
      split; discriminate.
Qed.

Lemma post_chat_synthesizer_input_witness :
  no_repeated_url [first_hit]
  ∧ no_repeated_url [first_hit]
  ∧ no_repeated_url []
  ∧ no_repeated_url [].
Proof.
  apply (post_chat_synthesizer_input (env := stub_gh)
           (chat_request "why" "sk-good") (Some "sk-good") (Some "why") None
           {| issues := [first_hit]; pullRequests := [first_hit];
              code := []; commits := [];
              summary := Some {| issuesFound := 1; prsFound := 1;
                                 codeFilesFound := 0; commitsFound := 0 |} |}).
  apply list_elem_of_lookup. exists 5. reflexivity.
Defined.
